(** * LoadTester: the runner (internal/runner/runner.go)

    A shallow embedding of the rate-controlled request generator:
    the pacer [pace], the per-request routine [sendRequest], the one-shot
    [Stop], and the goroutines of [Run] / [StartTest] (main, dispatcher,
    workers) as a labelled transition system whose labels are the
    scheduler's and the environment's choices. *)

From Stdlib Require Import ZArith Lia.
From stdpp Require Import base numbers list strings pretty.

Local Open Scope Z_scope.

(** ** Machine integers

    Go's [uint64], [int64] ([time.Duration]) and [uint16] are modelled as
    [Z] with the wrap-around of every operation and conversion written
    out. *)

Module Int.

Definition MaxInt64 : Z := 2 ^ 63 - 1.
Definition MinInt64 : Z := - 2 ^ 63.
Definition MaxUint64 : Z := 2 ^ 64 - 1.

Definition is_uint64 (z : Z) : Prop := 0 <= z <= MaxUint64.
Definition is_int64 (z : Z) : Prop := MinInt64 <= z <= MaxInt64.

(** Conversion to (and arithmetic in) [uint64]: reduction modulo 2^64. *)
Definition to_uint64 (z : Z) : Z := z mod 2 ^ 64.

(** Conversion to (and arithmetic in) [int64]: two's complement. *)
Definition to_int64 (z : Z) : Z := (z + 2 ^ 63) mod 2 ^ 64 - 2 ^ 63.

Definition to_uint16 (z : Z) : Z := z mod 2 ^ 16.

(** Integer division panics on a zero divisor; [None] is that panic.
    Signed division truncates toward zero ([Z.quot]); the dividends the
    runner uses never hit the [MinInt64 / -1] case. *)
Definition div_int64 (a b : Z) : option Z :=
  if b =? 0 then None else Some (to_int64 (Z.quot a b)).

Definition div_uint64 (a b : Z) : option Z :=
  if b =? 0 then None else Some (a / b).

End Int.

Import Int.

(** ** Configuration and the runner *)

(** [time.Second], in nanoseconds. *)
Definition Second : Z := 1000000000.

Record LoadTestArgs := mkArgs {
  Duration : Z;        (* time.Duration (int64 ns); 0 = forever *)
  Qps : Z;             (* uint64 *)
  Workers : Z;         (* uint64 *)
  MaxWorkers : Z;      (* uint64 *)
  AutoScale : bool;
  Timeout : Z;         (* uint64, seconds *)
  Method : string;
  OutputFile : string
}.

Record Runner := mkRunner {
  target : string;
  args : LoadTestArgs
}.

Definition NewRunner (tgt : string) (a : LoadTestArgs) : Runner :=
  {| target := tgt; args := a |}.

Definition wf_args (a : LoadTestArgs) : Prop :=
  is_int64 (Duration a) /\ is_uint64 (Qps a) /\ is_uint64 (Workers a) /\
  is_uint64 (MaxWorkers a) /\ is_uint64 (Timeout a).

(** ** The pacer

    [pace r elapsed requests] is [Some (wait, stop)], or [None] when the
    Go code panics with an integer division by zero. *)
Definition pace (r : Runner) (elapsed requests : Z) : option (Z * bool) :=
  let expectedRequests :=
    to_uint64 (to_uint64 (Qps (args r)) * to_uint64 (Z.quot elapsed Second)) in
  if requests <? expectedRequests then
    (* Running behind, send next request immediately. *)
    Some (0, false)
  else
    match div_int64 Second (to_int64 (Qps (args r))) with
    | None => None
    | Some q =>
      let interval := to_uint64 q in
      match div_uint64 MaxInt64 interval with
      | None => None
      | Some lim =>
        if lim <? requests then
          (* We would overflow delta if we continued, so stop the run. *)
          Some (0, true)
        else
          let delta := to_int64 (to_uint64 ((requests + 1) * interval)) in
          Some (to_int64 (delta - elapsed), false)
      end
    end.

(** The pacing interval for a rate [q] whose conversions do not wrap. *)
Definition interval_of (q : Z) : Z := Second / q.

(** The pacing rule in the words of the specification, over unbounded
    integers: zero wait when behind schedule, otherwise the distance to
    the target time of the next request; never a stop. *)
Definition pace_stated (q elapsed requests : Z) : Z * bool :=
  if requests <? q * (elapsed / Second) then (0, false)
  else ((requests + 1) * interval_of q - elapsed, false).

(** The overflow policy in the words of the specification. *)
Definition overflow_stated (q requests : Z) : bool :=
  MaxInt64 <? (requests + 1) * interval_of q.

Definition runner_qps (q : Z) : Runner :=
  NewRunner "http://localhost" (mkArgs 0 q 1 1 false 30 "GET" "stdout").


(** ** Results and a single request *)

Record Result := mkResult {
  Success : bool;
  Latency : Z;         (* time.Duration *)
  Timestamp : Z;       (* time.Time, as its monotonic clock reading in ns *)
  Seq : Z;             (* uint64 *)
  Error : string;
  Code : Z             (* uint16 *)
}.

(** [var result Result]: the zero value. *)
Definition zeroResult : Result := mkResult false 0 0 0 "" 0.

Definition set_Latency (v : Z) (x : Result) : Result :=
  mkResult (Success x) v (Timestamp x) (Seq x) (Error x) (Code x).
Definition set_Timestamp (v : Z) (x : Result) : Result :=
  mkResult (Success x) (Latency x) v (Seq x) (Error x) (Code x).
Definition set_Seq (v : Z) (x : Result) : Result :=
  mkResult (Success x) (Latency x) (Timestamp x) v (Error x) (Code x).
Definition set_Error (v : string) (x : Result) : Result :=
  mkResult (Success x) (Latency x) (Timestamp x) (Seq x) v (Code x).
Definition set_Code (v : Z) (x : Result) : Result :=
  mkResult (Success x) (Latency x) (Timestamp x) (Seq x) (Error x) v.

(** [loadTest]; the mutex [seqmu] is the atomicity of [enterSend]. *)
Record loadTest := mkLoadTest {
  began : Z;
  seq : Z
}.

(** [time.Time] values carry a monotonic clock reading; [Sub] (and so
    [time.Since]) saturates at the ends of [int64]. *)
Definition time_Sub (t u : Z) : Z :=
  let d := t - u in
  if d >? MaxInt64 then MaxInt64 else if d <? MinInt64 then MinInt64 else d.

Definition time_Since (now t : Z) : Z := time_Sub now t.

Definition time_Add (t d : Z) : Z := t + d.

(** What the network and [net/http] answer to one request. *)
Inductive http_outcome :=
| BuildError (err : string)            (* http.NewRequest returns an error *)
| TransportError (err : string)        (* r.client.Do returns an error *)
| Response (StatusCode : Z) (Status : string).

(** Lines 202-206 of [sendRequest], executed under [lt.seqmu]. *)
Definition enterSend (now : Z) (lt : loadTest) : Result * loadTest :=
  let result := zeroResult in
  let result := set_Timestamp (time_Add (began lt) (time_Since now (began lt))) result in
  let result := set_Seq (seq lt) result in
  (result, mkLoadTest (began lt) (to_uint64 (seq lt + 1))).

(** Lines 215-232: the request itself; the second component is [err]. *)
Definition doRequest (o : http_outcome) (result : Result) : Result * option string :=
  match o with
  | BuildError e => (set_Error e result, Some e)
  | TransportError e => (set_Error e result, Some e)
  | Response sc st =>
    let result := set_Code (to_uint16 sc) result in
    if (Code result <? 200) || (Code result >=? 400)
    then (set_Error st result, None)
    else (result, None)
  end.

(** Lines 208-213: the deferred closure, run at every return. *)
Definition deferredSend (now : Z) (re : Result * option string) : Result :=
  let result := set_Latency (time_Since now (Timestamp (fst re))) (fst re) in
  match snd re with
  | Some e => set_Error e result
  | None => result
  end.

Definition completeSend (now : Z) (o : http_outcome) (result : Result) : Result :=
  deferredSend now (doRequest o result).

(** [sendRequest], given the clock at the critical section and at the
    return, and the outcome of the exchange. *)
Definition sendRequest (now_send now_done : Z) (o : http_outcome) (lt : loadTest)
  : Result * loadTest :=
  let '(result, lt') := enterSend now_send lt in
  (completeSend now_done o result, lt').

(** The success criterion of the summary (line 267). *)
Definition code_ok (c : Z) : bool := (c >=? 200) && (c <? 400).

(** [printResultSummary]: the three printed figures, or [None] when the
    average divides by a zero length. *)
Definition printResultSummary (results : list Result) : option (Z * Z * Z) :=
  let success := Z.of_nat (length (filter (fun x => code_ok (Code x) = true) results)) in
  let failure := Z.of_nat (length (filter (fun x => code_ok (Code x) = false) results)) in
  let totalLatency := foldl (fun acc x => to_int64 (acc + Latency x)) 0 results in
  match div_int64 totalLatency (Z.of_nat (length results)) with
  | None => None
  | Some avg => Some (success, failure, avg)
  end.

(** [createWriter]; [oscreate] is the error of [os.Create], if any. *)
Definition createWriter (name : string) (oscreate : option string) : option string :=
  if String.eqb name "stdout" then None else oscreate.

Definition lt0 : loadTest := mkLoadTest 0 0.

(** ** The one-shot stop *)

Record stopper := mkStopper {
  stopch_closed : bool;     (* r.stopch *)
  once_done : bool          (* r.stopOnce *)
}.

Definition new_stopper : stopper := mkStopper false false.

(** Closing a closed channel panics. *)
Definition close_chan (closed : bool) : option bool :=
  if closed then None else Some true.

(** [r.stopOnce.Do(func() { close(r.stopch) })]. *)
Definition once_do_close (st : stopper) : option stopper :=
  if once_done st then Some st
  else match close_chan (stopch_closed st) with
       | None => None
       | Some c => Some (mkStopper c true)
       end.

(** [Stop] run without interruption: [None] is a panic. *)
Definition Stop (st : stopper) : option (bool * stopper) :=
  if stopch_closed st then Some (false, st)
  else match once_do_close st with
       | None => None
       | Some st' => Some (true, st')
       end.

(** [n] calls of [Stop], one after the other: the values returned, and
    the final state. *)
Fixpoint Stop_calls (n : nat) (st : stopper) : option (list bool * stopper) :=
  match n with
  | O => Some ([], st)
  | S n' =>
    match Stop st with
    | None => None
    | Some (b, st') =>
      match Stop_calls n' st' with
      | None => None
      | Some (bs, st'') => Some (b :: bs, st'')
      end
    end
  end.

(** ** The goroutines of a run

    [Run] (the main goroutine), the dispatcher closure of [StartTest] and
    the workers ([runWorker]) share the clock, [loadTest], the [ticks] and
    [results] channels (both unbuffered), the stop channel and the wait
    group.  Each goroutine is a small program counter; one [action] is one
    atomic step of one goroutine, or the passing of time.

    What is taken from the Go runtime: the monotonic clock never goes
    back ([AAdvance] takes a non-negative amount); a send on an unbuffered
    channel completes together with a receive; a [select] takes any ready
    case and its default only when none is ready; closing a closed channel
    and sending on a closed channel panic; a panic of a goroutine runs its
    deferred functions and then ends the process.  The wait group counter
    is an integer without its 32-bit width. *)

Inductive wstate :=
| WIdle                          (* at the head of [for range ticks] *)
| WParked                        (* blocked in the receive on [ticks] *)
| WGotTick                       (* tick received, before the critical section *)
| WInFlight (result : Result)    (* sequence number taken, request under way *)
| WPushing (result : Result)     (* blocked in [results <- result] *)
| WDone.                         (* returned, [wg.Done()] executed *)

Inductive dpc :=
| DNotStarted
| DTop                           (* line 132 *)
| DSleep (wake : Z)              (* line 142, until the clock reaches [wake] *)
| DTrySend                       (* the select with default, line 145 *)
| DBlockSend                     (* the blocking select, line 159 *)
| DCloseTicks                    (* deferred: line 124 *)
| DWait                          (* line 125 *)
| DCloseResults                  (* line 126 *)
| DStop                          (* line 127, at the select of [Stop] *)
| DStopOnce                      (* line 127, at [stopOnce.Do] *)
| DDone.

Inductive run_return :=
| RetNil                         (* return nil *)
| RetOpenError (err : string)    (* line 71 *)
| RetWriteError (err : string).  (* line 84 *)

Inductive mpc :=
| MInit                          (* before [r.StartTest()] *)
| MCreateWriter                  (* line 69 *)
| MLoop                          (* the select of line 76 *)
| MStopOnce                      (* line 87, at [stopOnce.Do] *)
| MReturned (ret : run_return).

Inductive panic :=
| DivideByZero
| CloseOfClosedChannel
| SendOnClosedChannel
| NegativeWaitGroup.

Inductive exit_reason :=
| DurationExpired | PaceStop | StopObserved | PacePanic.

Inductive caller := ByMain | ByDispatcher.

Inductive event :=
| EvSpawn (i : nat)
| EvTick (i : nat)
| EvSend (i : nat) (s ts : Z)
| EvPush (result : Result)
| EvWorkerExit (i : nat)
| EvLoopExit (why : exit_reason)
| EvCloseTicks
| EvJoined
| EvCloseResults
| EvStop (who : caller) (sent : bool).

Record state := mkState {
  clock : Z;                     (* monotonic clock, ns *)
  lt : loadTest;
  stop : stopper;
  (* Run *)
  main : mpc;
  resultList : list Result;
  written : list Result;
  (* the dispatcher closure *)
  disp : dpc;
  count : Z;
  workers : Z;
  panicking : bool;
  (* the pool *)
  pool : list wstate;
  wg : Z;
  ticks_closed : bool;
  results_closed : bool;
  (* the process *)
  crashed : option panic;
  log : list event               (* newest first *)
}.

Definition set_clock v s := mkState v (lt s) (stop s) (main s) (resultList s) (written s)
  (disp s) (count s) (workers s) (panicking s) (pool s) (wg s) (ticks_closed s)
  (results_closed s) (crashed s) (log s).
Definition set_lt v s := mkState (clock s) v (stop s) (main s) (resultList s) (written s)
  (disp s) (count s) (workers s) (panicking s) (pool s) (wg s) (ticks_closed s)
  (results_closed s) (crashed s) (log s).
Definition set_stop v s := mkState (clock s) (lt s) v (main s) (resultList s) (written s)
  (disp s) (count s) (workers s) (panicking s) (pool s) (wg s) (ticks_closed s)
  (results_closed s) (crashed s) (log s).
Definition set_main v s := mkState (clock s) (lt s) (stop s) v (resultList s) (written s)
  (disp s) (count s) (workers s) (panicking s) (pool s) (wg s) (ticks_closed s)
  (results_closed s) (crashed s) (log s).
Definition set_resultList v s := mkState (clock s) (lt s) (stop s) (main s) v (written s)
  (disp s) (count s) (workers s) (panicking s) (pool s) (wg s) (ticks_closed s)
  (results_closed s) (crashed s) (log s).
Definition set_written v s := mkState (clock s) (lt s) (stop s) (main s) (resultList s) v
  (disp s) (count s) (workers s) (panicking s) (pool s) (wg s) (ticks_closed s)
  (results_closed s) (crashed s) (log s).
Definition set_disp v s := mkState (clock s) (lt s) (stop s) (main s) (resultList s) (written s)
  v (count s) (workers s) (panicking s) (pool s) (wg s) (ticks_closed s)
  (results_closed s) (crashed s) (log s).
Definition set_count v s := mkState (clock s) (lt s) (stop s) (main s) (resultList s) (written s)
  (disp s) v (workers s) (panicking s) (pool s) (wg s) (ticks_closed s)
  (results_closed s) (crashed s) (log s).
Definition set_workers v s := mkState (clock s) (lt s) (stop s) (main s) (resultList s) (written s)
  (disp s) (count s) v (panicking s) (pool s) (wg s) (ticks_closed s)
  (results_closed s) (crashed s) (log s).
Definition set_panicking v s := mkState (clock s) (lt s) (stop s) (main s) (resultList s) (written s)
  (disp s) (count s) (workers s) v (pool s) (wg s) (ticks_closed s)
  (results_closed s) (crashed s) (log s).
Definition set_pool v s := mkState (clock s) (lt s) (stop s) (main s) (resultList s) (written s)
  (disp s) (count s) (workers s) (panicking s) v (wg s) (ticks_closed s)
  (results_closed s) (crashed s) (log s).
Definition set_wg v s := mkState (clock s) (lt s) (stop s) (main s) (resultList s) (written s)
  (disp s) (count s) (workers s) (panicking s) (pool s) v (ticks_closed s)
  (results_closed s) (crashed s) (log s).
Definition set_ticks_closed v s := mkState (clock s) (lt s) (stop s) (main s) (resultList s) (written s)
  (disp s) (count s) (workers s) (panicking s) (pool s) (wg s) v
  (results_closed s) (crashed s) (log s).
Definition set_results_closed v s := mkState (clock s) (lt s) (stop s) (main s) (resultList s) (written s)
  (disp s) (count s) (workers s) (panicking s) (pool s) (wg s) (ticks_closed s)
  v (crashed s) (log s).
Definition set_crashed v s := mkState (clock s) (lt s) (stop s) (main s) (resultList s) (written s)
  (disp s) (count s) (workers s) (panicking s) (pool s) (wg s) (ticks_closed s)
  (results_closed s) v (log s).
Definition emit (e : event) s := mkState (clock s) (lt s) (stop s) (main s) (resultList s) (written s)
  (disp s) (count s) (workers s) (panicking s) (pool s) (wg s) (ticks_closed s)
  (results_closed s) (crashed s) (e :: log s).

(** The state before [Run] is called, at clock reading [t0]. *)
Definition init_state (t0 : Z) : state :=
  mkState t0 (mkLoadTest 0 0) new_stopper MInit [] [] DNotStarted 0 0 false [] 0
    false false None [].

Definition is_parked (w : wstate) : bool :=
  match w with WParked => true | _ => false end.

Definition is_live (w : wstate) : bool :=
  match w with WDone => false | _ => true end.

Definition crash (p : panic) (s : state) : state := set_crashed (Some p) s.

Inductive action :=
| AAdvance (d : Z)                         (* time passes *)
| AMainStartTest                           (* line 64 *)
| AMainCreateWriter (oscreate : option string)
| AMainRecv (i : nat) (werr : option string)  (* lines 77-85, from worker [i] *)
| AMainRecvClosed                          (* lines 78-80 *)
| AMainSignal                              (* lines 86-87, the select of [Stop] *)
| AMainStopOnce
| ADispTop                                 (* lines 132-142 *)
| ADispWake                                (* lines 142-144 *)
| ADispTick (i : nat)                      (* a send on [ticks], to worker [i] *)
| ADispSeeStop                             (* [case <-r.stopch] *)
| ADispSpawn                               (* the default case, lines 153-155 *)
| ADispCloseTicks
| ADispWait
| ADispCloseResults
| ADispStop
| ADispStopOnce
| AWorkPark (i : nat)
| AWorkExit (i : nat)
| AWorkEnter (i : nat)                     (* lines 202-206 *)
| AWorkComplete (i : nat) (o : http_outcome)
| AWorkPanicSend (i : nat).                (* a send on closed [results] *)

(** [StartTest]: the clock is read, the initial workers and the
    dispatcher are started. *)
Definition StartTest (r : Runner) (s : state) : state :=
  let n := Workers (args r) in
  set_lt (mkLoadTest (clock s) 0)
    (set_workers n (set_count 0
      (set_pool (replicate (Z.to_nat n) WIdle) (set_wg n (set_disp DTop s))))).

(** A [return] (or a panic) inside the dispatch loop enters the deferred
    function. *)
Definition exit_loop (why : exit_reason) (s : state) : state :=
  emit (EvLoopExit why) (set_disp DCloseTicks s).

Definition dispatch_top (r : Runner) (s : state) : state :=
  let elapsed := time_Since (clock s) (began (lt s)) in
  if (Duration (args r) >? 0) && (elapsed >? Duration (args r))
  then exit_loop DurationExpired s
  else match pace r elapsed (count s) with
       | None => set_panicking true (exit_loop PacePanic s)
       | Some (_, true) => exit_loop PaceStop s
       | Some (wait, false) => set_disp (DSleep (clock s + wait)) s
       end.

Definition dispatch_wake (r : Runner) (s : state) : state :=
  if AutoScale (args r) && (workers s <? MaxWorkers (args r))
  then set_disp DTrySend s
  else set_disp DBlockSend s.

Definition dispatch_tick (i : nat) (s : state) : state :=
  emit (EvTick i)
    (set_disp DTop (set_count (to_uint64 (count s + 1))
      (set_pool (<[i:=WGotTick]> (pool s)) s))).

Definition dispatch_spawn (s : state) : state :=
  emit (EvSpawn (length (pool s)))
    (set_disp DBlockSend (set_workers (to_uint64 (workers s + 1))
      (set_wg (wg s + 1) (set_pool (pool s ++ [WIdle]) s)))).

(** The end of the deferred function; a panic of the loop resumes and
    kills the process. *)
Definition finish_defer (sent : bool) (s : state) : state :=
  let s' := emit (EvStop ByDispatcher sent) (set_disp DDone s) in
  if panicking s then crash DivideByZero s' else s'.

Definition open_error (name err : string) : string :=
  "error opening " +:+ name +:+ ": " +:+ err.

Definition main_recv (i : nat) (result : Result) (werr : option string) (s : state) : state :=
  let s' := emit (EvPush result)
              (set_pool (<[i:=WIdle]> (pool s))
                (set_resultList (resultList s ++ [result]) s)) in
  match werr with
  | Some err => set_main (MReturned (RetWriteError err)) s'
  | None => set_written (written s ++ [result]) s'
  end.

Definition worker_enter (i : nat) (s : state) : state :=
  let '(result, lt') := enterSend (clock s) (lt s) in
  emit (EvSend i (Seq result) (Timestamp result))
    (set_lt lt' (set_pool (<[i:=WInFlight result]> (pool s)) s)).

Definition worker_exit (i : nat) (s : state) : state :=
  if wg s - 1 <? 0 then crash NegativeWaitGroup s
  else emit (EvWorkerExit i) (set_wg (wg s - 1) (set_pool (<[i:=WDone]> (pool s)) s)).

Definition step (r : Runner) (a : action) (s : state) : option state :=
  match crashed s with
  | Some _ => None
  | None =>
    match a with
    | AAdvance d =>
      if (0 <=? d) && (clock s + d <=? MaxInt64)
      then Some (set_clock (clock s + d) s) else None
    | AMainStartTest =>
      match main s with
      | MInit => Some (set_main MCreateWriter (StartTest r s))
      | _ => None
      end
    | AMainCreateWriter oscreate =>
      match main s with
      | MCreateWriter =>
        match createWriter (OutputFile (args r)) oscreate with
        | Some err =>
          Some (set_main (MReturned (RetOpenError (open_error (OutputFile (args r)) err))) s)
        | None => Some (set_main MLoop s)
        end
      | _ => None
      end
    | AMainRecv i werr =>
      match main s, pool s !! i, results_closed s with
      | MLoop, Some (WPushing result), false => Some (main_recv i result werr s)
      | _, _, _ => None
      end
    | AMainRecvClosed =>
      match main s, results_closed s with
      | MLoop, true =>
        match printResultSummary (resultList s) with
        | None => Some (crash DivideByZero s)
        | Some _ => Some (set_main (MReturned RetNil) s)
        end
      | _, _ => None
      end
    | AMainSignal =>
      match main s with
      | MLoop =>
        if stopch_closed (stop s)
        then Some (emit (EvStop ByMain false) (set_main (MReturned RetNil) s))
        else Some (set_main MStopOnce s)
      | _ => None
      end
    | AMainStopOnce =>
      match main s with
      | MStopOnce =>
        match once_do_close (stop s) with
        | None => Some (crash CloseOfClosedChannel s)
        | Some st => Some (emit (EvStop ByMain true) (set_main MLoop (set_stop st s)))
        end
      | _ => None
      end
    | ADispTop =>
      match disp s with
      | DTop => Some (dispatch_top r s)
      | _ => None
      end
    | ADispWake =>
      match disp s with
      | DSleep wake => if wake <=? clock s then Some (dispatch_wake r s) else None
      | _ => None
      end
    | ADispTick i =>
      match disp s, pool s !! i with
      | DTrySend, Some WParked | DBlockSend, Some WParked => Some (dispatch_tick i s)
      | _, _ => None
      end
    | ADispSeeStop =>
      match disp s with
      | DTrySend | DBlockSend =>
        if stopch_closed (stop s) then Some (exit_loop StopObserved s) else None
      | _ => None
      end
    | ADispSpawn =>
      match disp s with
      | DTrySend =>
        if negb (stopch_closed (stop s)) && forallb (fun w => negb (is_parked w)) (pool s)
        then Some (dispatch_spawn s) else None
      | _ => None
      end
    | ADispCloseTicks =>
      match disp s with
      | DCloseTicks =>
        match close_chan (ticks_closed s) with
        | None => Some (crash CloseOfClosedChannel s)
        | Some c => Some (emit EvCloseTicks (set_disp DWait (set_ticks_closed c s)))
        end
      | _ => None
      end
    | ADispWait =>
      match disp s with
      | DWait => if wg s =? 0 then Some (emit EvJoined (set_disp DCloseResults s)) else None
      | _ => None
      end
    | ADispCloseResults =>
      match disp s with
      | DCloseResults =>
        match close_chan (results_closed s) with
        | None => Some (crash CloseOfClosedChannel s)
        | Some c => Some (emit EvCloseResults (set_disp DStop (set_results_closed c s)))
        end
      | _ => None
      end
    | ADispStop =>
      match disp s with
      | DStop =>
        if stopch_closed (stop s) then Some (finish_defer false s)
        else Some (set_disp DStopOnce s)
      | _ => None
      end
    | ADispStopOnce =>
      match disp s with
      | DStopOnce =>
        match once_do_close (stop s) with
        | None => Some (crash CloseOfClosedChannel s)
        | Some st => Some (finish_defer true (set_stop st s))
        end
      | _ => None
      end
    | AWorkPark i =>
      match pool s !! i, ticks_closed s with
      | Some WIdle, false => Some (set_pool (<[i:=WParked]> (pool s)) s)
      | _, _ => None
      end
    | AWorkExit i =>
      match pool s !! i, ticks_closed s with
      | Some WIdle, true | Some WParked, true => Some (worker_exit i s)
      | _, _ => None
      end
    | AWorkEnter i =>
      match pool s !! i with
      | Some WGotTick => Some (worker_enter i s)
      | _ => None
      end
    | AWorkComplete i o =>
      match pool s !! i with
      | Some (WInFlight result) =>
        Some (set_pool (<[i:=WPushing (completeSend (clock s) o result)]> (pool s)) s)
      | _ => None
      end
    | AWorkPanicSend i =>
      match pool s !! i, results_closed s with
      | Some (WPushing _), true => Some (crash SendOnClosedChannel s)
      | _, _ => None
      end
    end
  end.

(** A schedule is a list of actions, run from left to right; [None] when
    one of them is not enabled. *)
Fixpoint run (r : Runner) (sched : list action) (s : state) : option state :=
  match sched with
  | [] => Some s
  | a :: sched' =>
    match step r a s with
    | Some s' => run r sched' s'
    | None => None
    end
  end.

Definition reachable (r : Runner) (s : state) : Prop :=
  exists t0 sched, 0 <= t0 <= MaxInt64 /\ run r sched (init_state t0) = Some s.

(** The events in the order in which they happened. *)
Definition trace (s : state) : list event := reverse (log s).

(** ** Observations on states and traces *)

Definition b2z (b : bool) : Z := if b then 1 else 0.

(** The number of workers in a given condition. *)
Fixpoint tally (f : wstate -> bool) (l : list wstate) : Z :=
  match l with
  | [] => 0
  | w :: l' => b2z (f w) + tally f l'
  end.

Definition got_tick (w : wstate) : bool :=
  match w with WGotTick => true | _ => false end.

(** The Result a worker holds, between the critical section and the push. *)
Definition held (w : wstate) : list Result :=
  match w with
  | WInFlight x | WPushing x => [x]
  | _ => []
  end.

Definition finished (w : wstate) : list Result :=
  match w with
  | WPushing x => [x]
  | _ => []
  end.

Definition held_all (l : list wstate) : list Result := concat (map held l).
Definition finished_all (l : list wstate) : list Result := concat (map finished l).

(** Every Result that exists in a state: held by a worker or received. *)
Definition all_results (s : state) : list Result :=
  held_all (pool s) ++ resultList s.

(** Every Result that is fully populated. *)
Definition completed_results (s : state) : list Result :=
  finished_all (pool s) ++ resultList s.

(** The steps of the dispatcher's shutdown. *)
Inductive shutdown_step :=
| SLoopExit | SCloseTicks | SJoined | SCloseResults | SStop.

Definition shutdown_order : list shutdown_step :=
  [SLoopExit; SCloseTicks; SJoined; SCloseResults; SStop].

Definition shutdown_of (e : event) : option shutdown_step :=
  match e with
  | EvLoopExit _ => Some SLoopExit
  | EvCloseTicks => Some SCloseTicks
  | EvJoined => Some SJoined
  | EvCloseResults => Some SCloseResults
  | EvStop ByDispatcher _ => Some SStop
  | _ => None
  end.

(** How many shutdown steps the dispatcher has taken. *)
Definition nphase (d : dpc) : nat :=
  match d with
  | DNotStarted | DTop | DSleep _ | DTrySend | DBlockSend => 0
  | DCloseTicks => 1
  | DWait => 2
  | DCloseResults => 3
  | DStop | DStopOnce => 4
  | DDone => 5
  end.

(** The events of the pool: spawning, ticks, sends, pushes, exits. *)
Definition is_worker_event (e : event) : bool :=
  match e with
  | EvSpawn _ | EvTick _ | EvSend _ _ _ | EvPush _ | EvWorkerExit _ => true
  | _ => false
  end.

Definition send_of (e : event) : option (Z * Z) :=
  match e with
  | EvSend _ s ts => Some (s, ts)
  | _ => None
  end.

(** The (sequence number, timestamp) pairs of the sends of a trace. *)
Definition sends (tr : list event) : list (Z * Z) := omap send_of tr.

(** ** Invariants of a run *)

(** Control: how the dispatcher's position, the channels, the wait group
    and the pool hang together. *)
Record control_inv (r : Runner) (s : state) : Prop := mkControlInv {
  ci_fresh : main s = MInit ->
             disp s = DNotStarted /\ pool s = [] /\ resultList s = [] /\
             written s = [] /\ log s = [];
  ci_ticks : ticks_closed s = true <-> (2 <= nphase (disp s))%nat;
  ci_results : results_closed s = true <-> (4 <= nphase (disp s))%nat;
  ci_joined : (3 <= nphase (disp s))%nat -> wg s = 0;
  ci_wg : wg s = tally is_live (pool s);
  ci_live : ticks_closed s = false -> tally is_live (pool s) = Z.of_nat (length (pool s));
  ci_workers : workers s = Z.of_nat (length (pool s));
  ci_try : disp s = DTrySend ->
           AutoScale (args r) = true /\ workers s < MaxWorkers (args r);
  ci_crash : crashed s = None \/ crashed s = Some DivideByZero;
  ci_once : once_done (stop s) = stopch_closed (stop s)
}.

(** The pair (sequence number, timestamp) that a Result carries. *)
Definition stamp (x : Result) : Z * Z := (Seq x, Timestamp x).

(** [n] stamps taken up to clock reading [c]: the sequence numbers are
    0, ..., n-1, each once, and the timestamps follow them. *)
Record stamps_ok (n c : Z) (L : list (Z * Z)) : Prop := mkStampsOk {
  so_seqs : map fst L ≡ₚ seqZ 0 n;
  so_range : Forall (fun p => 0 <= snd p <= c) L;
  so_order : forall p q, p ∈ L -> q ∈ L -> fst p < fst q -> snd p <= snd q
}.

(** The dispatcher has paced and is about to hand over a tick. *)
Definition sending (d : dpc) : bool :=
  match d with
  | DSleep _ | DTrySend | DBlockSend => true
  | _ => false
  end.

(** Data: the clock, the counters and the Results. *)
Record data_inv (s : state) : Prop := mkDataInv {
  di_clock : 0 <= began (lt s) <= clock s /\ clock s <= MaxInt64;
  di_seq : 0 <= seq (lt s);
  di_count : seq (lt s) + tally got_tick (pool s) = count s;
  di_count_max : count s <= MaxUint64;
  di_room : sending (disp s) = true -> count s < MaxUint64;
  di_stamps : stamps_ok (seq (lt s)) (clock s) (map stamp (all_results s));
  di_latency : Forall (fun x => 0 <= Latency x) (completed_results s);
  di_sends : map fst (sends (log s)) = reverse (seqZ 0 (seq (lt s)))
}.

(** No event of the pool after the event [mark] (in a log, newest first). *)
Fixpoint quiet_after (mark : event) (lg : list event) : Prop :=
  match lg with
  | [] => True
  | e :: lg' => (is_worker_event e = true -> mark ∉ lg') /\ quiet_after mark lg'
  end.

(** [Run] has not reached its receive loop. *)
Definition before_loop (m : mpc) : bool :=
  match m with
  | MInit | MCreateWriter | MReturned (RetOpenError _) => true
  | _ => false
  end.

(** The error that [Run] hands to its caller. *)
Definition run_error (ret : run_return) : option string :=
  match ret with
  | RetNil => None
  | RetOpenError err | RetWriteError err => Some err
  end.

(** Traces: the order of the shutdown, and what [Run] has consumed. *)
Record trace_inv (s : state) : Prop := mkTraceInv {
  ti_shutdown :
    omap shutdown_of (log s) = reverse (take (nphase (disp s)) shutdown_order);
  ti_quiet_join : quiet_after EvJoined (log s);
  ti_quiet_close : quiet_after EvCloseResults (log s);
  ti_before_loop : before_loop (main s) = true -> resultList s = [] /\ written s = []
}.

(** Scaling: the count of workers against the configuration. *)
Record scale_inv (r : Runner) (s : state) : Prop := mkScaleInv {
  si_initial : main s <> MInit -> Workers (args r) <= workers s;
  si_max : main s <> MInit -> Workers (args r) <= MaxWorkers (args r) ->
           workers s <= MaxWorkers (args r)
}.

(** Everything that holds in every reachable state. *)
Record run_inv (r : Runner) (s : state) : Prop := mkRunInv {
  ri_control : control_inv r s;
  ri_data : data_inv s;
  ri_trace : trace_inv s;
  ri_scale : scale_inv r s
}.


(** The conditions under which the pool is drained. *)
Definition draining (r : Runner) (s : state) : Prop :=
  control_inv r s /\ crashed s = None /\ disp s = DWait /\ main s = MLoop.

(** One more worker has returned. *)
Definition drained_one (r : Runner) (s : state) : Prop :=
  exists sched s', run r sched s = Some s' /\ draining r s' /\ wg s' = wg s - 1.

(** ** Concrete runs *)

(** QPS 100 for 5 ms, one worker that may grow to five. *)
Definition demo_runner : Runner :=
  NewRunner "http://localhost:8080" (mkArgs 5000000 100 1 5 true 30 "GET" "stdout").

(** One request: the dispatcher finds no parked worker and starts a
    second one, which serves the tick; then the duration expires. *)
Definition demo_schedule : list action :=
  [ AMainStartTest; AMainCreateWriter None;
    ADispTop; AAdvance 10000000; ADispWake; ADispSpawn;
    AWorkPark 1; ADispTick 1; AWorkEnter 1; AAdvance 3000;
    AWorkComplete 1 (Response 200 "200 OK"); AMainRecv 1 None;
    ADispTop; ADispCloseTicks; AWorkExit 0; AWorkExit 1; ADispWait;
    ADispCloseResults; ADispStop; ADispStopOnce; AMainRecvClosed ].

Definition state_after (r : Runner) (sched : list action) : state :=
  match run r sched (init_state 0) with
  | Some s => s
  | None => init_state 0
  end.

Definition demo_state : state :=
  Eval vm_compute in state_after demo_runner demo_schedule.

(** The same rate, with an output file that cannot be created. *)
Definition nofile_runner : Runner :=
  NewRunner "http://localhost:8080"
    (mkArgs 0 100 1 1 false 30 "GET" "/nonexistent/out.csv").

Definition nofile_error : string :=
  "open /nonexistent/out.csv: no such file or directory".

(** The dispatcher and the worker run before [Run] reaches line 69. *)
Definition nofile_schedule : list action :=
  [ AMainStartTest; ADispTop; AAdvance 10000000; ADispWake;
    AWorkPark 0; ADispTick 0; AWorkEnter 0;
    AMainCreateWriter (Some nofile_error) ].

Definition nofile_state : state :=
  Eval vm_compute in state_after nofile_runner nofile_schedule.

(** [Run]'s signal handler and the dispatcher's deferred [Stop] overlap. *)
Definition race_schedule : list action :=
  [ AMainStartTest; AMainCreateWriter None;
    AAdvance 6000000; ADispTop; ADispCloseTicks; AWorkExit 0; ADispWait;
    ADispCloseResults; ADispStop; AMainSignal; AMainStopOnce; ADispStopOnce ].

Definition race_state : state :=
  Eval vm_compute in state_after demo_runner race_schedule.

(** ** The rest of the runner *)

(** [NewRunner]: the timeout of the HTTP client,
    [time.Duration(args.Timeout) * time.Second]. *)
Definition client_timeout (a : LoadTestArgs) : Z :=
  to_int64 (to_int64 (Timeout a) * Second).

(** [strconv.FormatInt(_, 10)] and [strconv.FormatUint(_, 10)]: decimal
    digits, with a leading minus sign for a negative number. *)
Definition FormatInt (z : Z) : string := pretty z.
Definition FormatUint (z : Z) : string := pretty z.

(** The record that [writeResult] hands to the CSV encoder (lines 246-252).
    [UnixNano] gives the wall-clock reading, in ns since the epoch, of a
    time given by its monotonic reading. *)
Definition result_record (UnixNano : Z -> Z) (x : Result) : list string :=
  [ FormatInt (UnixNano (Timestamp x));
    FormatUint (to_uint64 (Code x));
    FormatInt (Latency x);
    Error x;
    FormatUint (Seq x) ].

(** [writeResult]: [enc_write] is what [enc.Write] answers to a record and
    [enc_error] what [enc.Error()] answers after the flush. *)
Definition writeResult (UnixNano : Z -> Z)
    (enc_write : list string -> option string) (enc_error : option string)
    (x : Result) : option string :=
  match enc_write (result_record UnixNano x) with
  | Some err => Some err
  | None => enc_error
  end.

(** The sum of line 272, in [int64]. *)
Definition totalLatency (results : list Result) : Z :=
  foldl (fun acc x => to_int64 (acc + Latency x)) 0 results.

(** The threshold of the guard of line 179. *)
Definition stop_threshold (q : Z) : Z := MaxInt64 / interval_of q.

(** ** More invariants of a run *)

(** Pacing: the count of ticks against the clock, for a rate whose
    interval is [interval_of]. *)
Record pace_inv (r : Runner) (s : state) : Prop := mkPaceInv {
  pi_count :
    count s * interval_of (Qps (args r)) <= clock s - began (lt s);
  pi_sleep : forall w, disp s = DSleep w ->
    (count s + 1) * interval_of (Qps (args r)) <= Z.max w (clock s) - began (lt s) /\
    w <= clock s + interval_of (Qps (args r));
  pi_send : disp s = DTrySend \/ disp s = DBlockSend ->
    (count s + 1) * interval_of (Qps (args r)) <= clock s - began (lt s);
  pi_panicking : panicking s = false;
  pi_exits : (EvLoopExit PaceStop ∉ log s) /\ (EvLoopExit PacePanic ∉ log s);
  pi_results :
    Forall (fun x => (Seq x + 1) * interval_of (Qps (args r))
                     <= Timestamp x - began (lt s))
           (all_results s);
  pi_crash : crashed s <> None ->
    crashed s = Some DivideByZero /\ main s = MLoop /\
    results_closed s = true /\ resultList s = []
}.

Definition tick_of (e : event) : option nat :=
  match e with EvTick i => Some i | _ => None end.

Definition push_of (e : event) : option Result :=
  match e with EvPush x => Some x | _ => None end.

(** Input and output: what [Run] receives, writes and returns, and what
    the configuration fixes. *)
Record io_inv (r : Runner) (s : state) : Prop := mkIoInv {
  io_ticks : Z.of_nat (length (omap tick_of (log s))) = count s;
  io_pushes : omap push_of (log s) = reverse (resultList s);
  io_written :
    match main s with
    | MReturned (RetWriteError _) => exists x, resultList s = written s ++ [x]
    | _ => written s = resultList s
    end;
  io_nil : main s = MReturned RetNil ->
    (results_closed s = true /\ resultList s <> []) \/ stopch_closed (stop s) = true;
  io_open : forall e, main s = MReturned (RetOpenError e) ->
    OutputFile (args r) <> "stdout" /\
    exists err, e = open_error (OutputFile (args r)) err;
  io_done : disp s = DDone -> stopch_closed (stop s) = true;
  io_stopped : forall who b, EvStop who b ∈ log s -> stopch_closed (stop s) = true;
  io_duration : EvLoopExit DurationExpired ∈ log s ->
    Duration (args r) > 0 /\ clock s - began (lt s) > Duration (args r);
  io_fixed : main s <> MInit ->
    AutoScale (args r) = false \/ MaxWorkers (args r) <= Workers (args r) ->
    workers s = Workers (args r);
  io_idle : pool s = [] -> count s = 0
}.

(** ** More concrete runs *)

(** The duration (5 ms) expires before the first tick: no Result at all,
    and [Run] reaches the summary. *)
Definition empty_schedule : list action :=
  [ AMainStartTest; AMainCreateWriter None;
    AAdvance 6000000; ADispTop; ADispCloseTicks; AWorkExit 0; ADispWait;
    ADispCloseResults; ADispStop; ADispStopOnce; AMainRecvClosed ].

Definition empty_state : state :=
  Eval vm_compute in state_after demo_runner empty_schedule.

(** The dispatcher has just left its loop. *)
Definition exiting_schedule : list action :=
  [ AMainStartTest; AMainCreateWriter None; AAdvance 6000000; ADispTop ].

Definition exiting_state : state :=
  Eval vm_compute in state_after demo_runner exiting_schedule.

(** The dispatcher is asleep before the first tick. *)
Definition sleeping_schedule : list action :=
  [ AMainStartTest; AMainCreateWriter None; ADispTop; AAdvance 4000000 ].

Definition sleeping_state : state :=
  Eval vm_compute in state_after demo_runner sleeping_schedule.

(** No worker and no autoscaling. *)
Definition idle_runner : Runner :=
  NewRunner "http://localhost:8080" (mkArgs 0 100 0 0 false 30 "GET" "stdout").

Definition idle_schedule : list action :=
  [ AMainStartTest; AMainCreateWriter None; ADispTop; AAdvance 10000000; ADispWake ].

Definition idle_state : state :=
  Eval vm_compute in state_after idle_runner idle_schedule.

(** * Properties *)

(** ** Machine integers *)

Module IntFacts.

Lemma to_uint64_id z : is_uint64 z -> to_uint64 z = z.
Proof.
  unfold is_uint64, MaxUint64, to_uint64. intros H.
  apply Z.mod_small. lia.
Qed.

Lemma to_int64_id z : is_int64 z -> to_int64 z = z.
Proof.
  unfold is_int64, MinInt64, MaxInt64, to_int64. intros H.
  rewrite Z.mod_small by lia. lia.
Qed.

Lemma to_uint64_range z : is_uint64 (to_uint64 z).
Proof.
  unfold is_uint64, MaxUint64, to_uint64.
  pose proof (Z.mod_pos_bound z (2 ^ 64)). lia.
Qed.

Lemma to_int64_range z : is_int64 (to_int64 z).
Proof.
  unfold is_int64, MinInt64, MaxInt64, to_int64.
  pose proof (Z.mod_pos_bound (z + 2 ^ 63) (2 ^ 64)). lia.
Qed.

Lemma to_uint16_id z : 0 <= z < 2 ^ 16 -> to_uint16 z = z.
Proof. intros H. unfold to_uint16. apply Z.mod_small. lia. Qed.

End IntFacts.

Import IntFacts.

(** ** The pacer *)

Example pace_100_start : pace (runner_qps 100) 0 0 = Some (10000000, false).
Proof. reflexivity. Qed.

Example pace_100_behind : pace (runner_qps 100) (2 * Second) 150 = Some (0, false).
Proof. reflexivity. Qed.

Example pace_100_late : pace (runner_qps 100) 995000000 50 = Some (-485000000, false).
Proof. reflexivity. Qed.

Section Pace.

Variable r : Runner.
Let qps := Qps (args r).

Hypothesis Hqps : 0 < qps <= Second.

Lemma interval_pos : 1 <= interval_of qps <= Second.
Proof.
  unfold interval_of. split.
  - apply Z.div_le_lower_bound; lia.
  - apply Z.div_le_upper_bound; unfold Second in *; nia.
Qed.

Lemma expected_exact elapsed :
  0 <= elapsed <= MaxInt64 ->
  to_uint64 (to_uint64 qps * to_uint64 (Z.quot elapsed Second)) = qps * (elapsed / Second).
Proof.
  intros He.
  rewrite Z.quot_div_nonneg by (unfold Second; lia).
  assert (Hs : 0 <= elapsed / Second <= 9223372036).
  { split; [apply Z.div_pos; unfold Second; lia|].
    enough (elapsed / Second < 9223372037) by lia.
    apply Z.div_lt_upper_bound; unfold Second, MaxInt64 in *; lia. }
  rewrite (to_uint64_id qps) by (unfold is_uint64, MaxUint64, Second in *; lia).
  rewrite (to_uint64_id (elapsed / Second)) by (unfold is_uint64, MaxUint64; lia).
  apply to_uint64_id. unfold is_uint64, MaxUint64, Second in *. nia.
Qed.

(** With the rate in range no conversion of [pace] wraps before [delta]. *)
Lemma pace_unfold elapsed requests :
  0 <= elapsed <= MaxInt64 ->
  pace r elapsed requests =
    if requests <? qps * (elapsed / Second) then Some (0, false)
    else if MaxInt64 / interval_of qps <? requests then Some (0, true)
    else Some (to_int64 (to_int64 (to_uint64 ((requests + 1) * interval_of qps)) - elapsed),
               false).
Proof.
  intros He. unfold pace. fold qps.
  rewrite expected_exact by done.
  destruct (requests <? qps * (elapsed / Second)); [done|].
  pose proof interval_pos as Hi.
  rewrite (to_int64_id qps) by (unfold is_int64, MinInt64, MaxInt64, Second in *; lia).
  unfold div_int64.
  destruct (Z.eqb_spec qps 0) as [|_]; [lia|].
  rewrite Z.quot_div_nonneg by (unfold Second; lia).
  fold (interval_of qps).
  rewrite (to_int64_id (interval_of qps))
    by (unfold is_int64, MinInt64, MaxInt64, Second in *; lia).
  rewrite (to_uint64_id (interval_of qps))
    by (unfold is_uint64, MaxUint64, Second in *; lia).
  unfold div_uint64.
  destruct (Z.eqb_spec (interval_of qps) 0) as [|_]; [lia|]. done.
Qed.

End Pace.

(** The interval is zero, and the guard's division panics, for every rate
    above 10^9 that is still positive as an [int64]. *)
Lemma pace_zero_interval (r : Runner) :
  Second < Qps (args r) <= MaxInt64 ->
  pace r 0 0 = None.
Proof.
  intros Hq. unfold pace.
  replace (Z.quot 0 Second) with 0 by reflexivity.
  replace (to_uint64 0) with 0 by reflexivity.
  rewrite Z.mul_0_r. replace (to_uint64 0) with 0 by reflexivity.
  replace (0 <? 0) with false by reflexivity.
  rewrite to_int64_id by (unfold is_int64, MinInt64, MaxInt64, Second in *; lia).
  unfold div_int64.
  destruct (Z.eqb_spec (Qps (args r)) 0) as [|_]; [unfold Second in *; lia|].
  rewrite Z.quot_small by (unfold Second in *; lia).
  reflexivity.
Qed.

(** A zero rate panics in the interval computation, whatever the inputs. *)
Lemma pace_zero_qps (r : Runner) elapsed requests :
  Qps (args r) = 0 -> 0 <= requests ->
  pace r elapsed requests = None.
Proof.
  intros Hq Hr. unfold pace. rewrite Hq.
  replace (to_uint64 0) with 0 by reflexivity.
  rewrite Z.mul_0_l. replace (to_uint64 0) with 0 by reflexivity.
  destruct (Z.ltb_spec requests 0); [lia|]. reflexivity.
Qed.

(** With the rate in range the pacer returns, for every elapsed time
    (negative ones included) and every count. *)
Lemma pace_returns (r : Runner) elapsed requests :
  0 < Qps (args r) <= Second ->
  is_Some (pace r elapsed requests).
Proof.
  intros Hq. unfold pace.
  destruct (_ <? _); [eauto|].
  pose proof (interval_pos r Hq) as Hi.
  rewrite to_int64_id by (unfold is_int64, MinInt64, MaxInt64, Second in *; lia).
  unfold div_int64.
  destruct (Z.eqb_spec (Qps (args r)) 0) as [|_]; [lia|].
  rewrite Z.quot_div_nonneg by (unfold Second; lia).
  fold (interval_of (Qps (args r))).
  rewrite (to_int64_id (interval_of _))
    by (unfold is_int64, MinInt64, MaxInt64, Second in *; lia).
  rewrite (to_uint64_id (interval_of _))
    by (unfold is_uint64, MaxUint64, Second in *; lia).
  unfold div_uint64.
  destruct (Z.eqb_spec (interval_of (Qps (args r))) 0) as [|_]; [lia|].
  destruct (_ <? _); eauto.
Qed.

(** A count past the guard is never behind schedule. *)
Lemma guard_not_behind (r : Runner) elapsed requests :
  0 < Qps (args r) <= Second ->
  0 <= elapsed <= MaxInt64 ->
  MaxInt64 / interval_of (Qps (args r)) <= requests ->
  Qps (args r) * (elapsed / Second) <= requests.
Proof.
  intros Hq He Hr.
  pose proof (interval_pos r Hq) as Hi.
  set (q := Qps (args r)) in *. set (iv := interval_of q) in *.
  assert (Hs : 0 <= elapsed / Second <= 9223372036).
  { split; [apply Z.div_pos; unfold Second; lia|].
    enough (elapsed / Second < 9223372037) by lia.
    apply Z.div_lt_upper_bound; unfold Second, MaxInt64 in *; lia. }
  assert (Hqi : q * iv <= Second).
  { unfold iv, interval_of. apply Z.mul_div_le. lia. }
  assert (Hlow : q * 9223372036 <= MaxInt64 / iv).
  { apply Z.div_le_lower_bound; [lia|].
    unfold MaxInt64, Second in *. nia. }
  nia.
Qed.

(** What the guard of line 179 decides: the run stops exactly when
    [requests * interval] no longer fits a duration. *)
Lemma pace_stop_iff (r : Runner) elapsed requests :
  0 < Qps (args r) <= Second ->
  0 <= elapsed <= MaxInt64 ->
  (exists w, pace r elapsed requests = Some (w, true)) <->
  MaxInt64 < requests * interval_of (Qps (args r)).
Proof.
  intros Hq He.
  pose proof (interval_pos r Hq) as Hi.
  rewrite (pace_unfold r Hq) by done.
  set (iv := interval_of (Qps (args r))) in *.
  assert (Hg : MaxInt64 / iv < requests <-> MaxInt64 < requests * iv).
  { split; intros H.
    - destruct (Z.le_gt_cases (requests * iv) MaxInt64) as [Hle|]; [|lia].
      assert (requests <= MaxInt64 / iv)
        by (apply Z.div_le_lower_bound; lia). lia.
    - apply Z.div_lt_upper_bound; lia. }
  destruct (Z.ltb_spec requests (Qps (args r) * (elapsed / Second))) as [Hb|Hb].
  - split; [intros [w Hw]; congruence|].
    intros H. apply Hg in H.
    pose proof (guard_not_behind r elapsed requests Hq He). unfold iv in *. lia.
  - destruct (Z.ltb_spec (MaxInt64 / iv) requests) as [Hs|Hs].
    + split; [tauto|eauto].
    + split; [intros [w Hw]; congruence|]. lia.
Qed.

(** The count [MaxInt64 / interval] escapes the guard for every rate in
    range, although the next target time does not fit a duration. *)
Lemma pace_guard_off_by_one (r : Runner) elapsed :
  0 < Qps (args r) <= Second ->
  0 <= elapsed <= MaxInt64 ->
  let requests := MaxInt64 / interval_of (Qps (args r)) in
  overflow_stated (Qps (args r)) requests = true /\
  exists w, pace r elapsed requests = Some (w, false).
Proof.
  intros Hq He requests.
  pose proof (interval_pos r Hq) as Hi.
  split.
  - unfold overflow_stated. apply Z.ltb_lt.
    pose proof (Z.mul_succ_div_gt MaxInt64 (interval_of (Qps (args r)))).
    unfold requests. lia.
  - rewrite (pace_unfold r Hq) by done.
    pose proof (guard_not_behind r elapsed requests Hq He).
    destruct (Z.ltb_spec requests (Qps (args r) * (elapsed / Second))); [unfold requests in *; lia|].
    destruct (Z.ltb_spec (MaxInt64 / interval_of (Qps (args r))) requests);
      [unfold requests in *; lia|]. eauto.
Qed.

(** C1 (as amended): for every elapsed time from 0 to the largest
    duration and every rate from 1 to 10^9 requests per second, a count
    below [QPS * floor(elapsed / 1s)] yields a zero wait and no stop, and
    any other count whose next target time [(count + 1) * interval] fits a
    duration yields the wait [(count + 1) * interval - elapsed], possibly
    zero or negative, and no stop; in both cases [pace] returns. *)
Theorem pace_follows_schedule (r : Runner) (elapsed requests : Z) :
  0 < Qps (args r) <= Second ->
  0 <= elapsed <= MaxInt64 ->
  (requests < Qps (args r) * (elapsed / Second) ->
     pace r elapsed requests = Some (0, false)) /\
  (Qps (args r) * (elapsed / Second) <= requests ->
   (requests + 1) * interval_of (Qps (args r)) <= MaxInt64 ->
     pace r elapsed requests =
       Some ((requests + 1) * interval_of (Qps (args r)) - elapsed, false)).
Proof.
  intros Hq He. pose proof (interval_pos r Hq) as Hi.
  rewrite (pace_unfold r Hq) by done.
  set (iv := interval_of (Qps (args r))) in *.
  split.
  - intros Hb. destruct (Z.ltb_spec requests (Qps (args r) * (elapsed / Second))); [done|lia].
  - intros Hb Hfit.
    assert (0 <= requests).
    { assert (0 <= elapsed / Second) by (apply Z.div_pos; unfold Second; lia). nia. }
    destruct (Z.ltb_spec requests (Qps (args r) * (elapsed / Second))); [lia|].
    assert (requests <= MaxInt64 / iv) by (apply Z.div_le_lower_bound; nia).
    destruct (Z.ltb_spec (MaxInt64 / iv) requests); [lia|].
    rewrite (to_uint64_id ((requests + 1) * iv))
      by (unfold is_uint64, MaxUint64, MaxInt64 in *; nia).
    rewrite (to_int64_id ((requests + 1) * iv))
      by (unfold is_int64, MinInt64, MaxInt64 in *; nia).
    rewrite to_int64_id by (unfold is_int64, MinInt64, MaxInt64 in *; nia).
    done.
Qed.

Lemma pace_follows_schedule_witness :
  pace (runner_qps 100) (2 * Second) 150 = Some (0, false) /\
  pace (runner_qps 100) 995000000 50 = Some (51 * 10000000 - 995000000, false).
Proof.
  split.
  - apply (pace_follows_schedule (runner_qps 100) (2 * Second) 150);
      vm_compute; (split; congruence) || reflexivity.
  - apply (pace_follows_schedule (runner_qps 100) 995000000 50);
      vm_compute; (split; congruence) || congruence.
Defined.

(** C1, as stated, fails at a rate above 10^9: QPS = 2 * 10^9 is positive,
    the count 0 is not behind schedule at elapsed 0 and nothing overflows,
    yet [pace] does not return the stated wait: it panics.  It also fails
    for a negative elapsed time, where the code truncates and wraps and the
    statement takes a floor: at QPS = 1, elapsed -1 s and count 0 the stated
    wait is 2 s and [pace] returns 0. *)
Lemma pace_stated_counterexample :
  (0 < Qps (args (runner_qps 2000000000)) /\
   overflow_stated 2000000000 0 = false /\
   pace_stated 2000000000 0 0 = (0, false) /\
   pace (runner_qps 2000000000) 0 0 = None) /\
  (0 < Qps (args (runner_qps 1)) /\
   overflow_stated 1 0 = false /\
   pace_stated 1 (- Second) 0 = (2 * Second, false) /\
   pace (runner_qps 1) (- Second) 0 = Some (0, false)).
Proof. vm_compute. repeat split; congruence. Qed.

(** C3: at QPS = 1 (interval 10^9 ns) and count 9223372036 the next
    target time (count + 1) * interval exceeds the largest duration, so the
    stated policy stops; the guard of [pace] lets the count through,
    [delta] wraps to a negative duration and the run goes on, both at
    elapsed 0 and at the elapsed time of 9223372036 s that goes with the
    count.  The guard stops one count later. *)
Theorem pace_guard_boundary :
  overflow_stated 1 9223372036 = true /\
  pace (runner_qps 1) 0 9223372036 = Some (-9223372036709551616, false) /\
  pace (runner_qps 1) (9223372036 * Second) 9223372036 = Some (Second, false) /\
  pace (runner_qps 1) 0 9223372037 = Some (0, true).
Proof. vm_compute. repeat split; reflexivity. Qed.

(** C10 (as amended): [pace] returns (no division by zero) for every
    elapsed time and count when 0 < QPS <= 10^9, and panics for every
    elapsed time and count when QPS = 0. *)
Theorem pace_total_in_range (r : Runner) (elapsed requests : Z) :
  (0 < Qps (args r) <= Second -> is_Some (pace r elapsed requests)) /\
  (Qps (args r) = 0 -> 0 <= requests -> pace r elapsed requests = None).
Proof.
  split.
  - apply pace_returns.
  - apply pace_zero_qps.
Qed.

Lemma pace_total_in_range_witness :
  is_Some (pace (runner_qps 100) 995000000 50) /\
  pace (runner_qps 0) 995000000 50 = None.
Proof.
  split.
  - apply (pace_total_in_range (runner_qps 100) 995000000 50). vm_compute.
    split; congruence.
  - apply (pace_total_in_range (runner_qps 0) 995000000 50).
    + reflexivity.
    + vm_compute. congruence.
Defined.

(** C10, as stated, fails: QPS = 2 * 10^9 is positive, and [pace] divides
    by the zero interval. *)
Lemma pace_total_counterexample :
  0 < Qps (args (runner_qps 2000000000)) /\
  pace (runner_qps 2000000000) 0 0 = None.
Proof. vm_compute. split; reflexivity. Qed.

(** ** A single request *)

Example send_200 :
  fst (sendRequest 10 25 (Response 200 "200 OK") lt0) = mkResult false 15 10 0 "" 200.
Proof. reflexivity. Qed.

Example send_404 :
  fst (sendRequest 10 25 (Response 404 "404 Not Found") lt0)
  = mkResult false 15 10 0 "404 Not Found" 404.
Proof. reflexivity. Qed.

Example send_refused :
  sendRequest 10 25 (TransportError "connection refused") (mkLoadTest 0 7)
  = (mkResult false 15 10 7 "connection refused" 0, mkLoadTest 0 8).
Proof. reflexivity. Qed.

(** No path of [sendRequest] assigns [result.Success]. *)
Lemma completeSend_Success now o result :
  Success (completeSend now o result) = Success result.
Proof.
  unfold completeSend, deferredSend, doRequest.
  destruct o; simpl; try done.
  destruct (_ || _); done.
Qed.

Lemma sendRequest_Success now_send now_done o lt :
  Success (fst (sendRequest now_send now_done o lt)) = false.
Proof. unfold sendRequest. simpl. by rewrite completeSend_Success. Qed.

Lemma completeSend_Seq now o result :
  Seq (completeSend now o result) = Seq result.
Proof.
  unfold completeSend, deferredSend, doRequest.
  destruct o; simpl; try done.
  destruct (_ || _); done.
Qed.

Lemma completeSend_Timestamp now o result :
  Timestamp (completeSend now o result) = Timestamp result.
Proof.
  unfold completeSend, deferredSend, doRequest.
  destruct o; simpl; try done.
  destruct (_ || _); done.
Qed.

Lemma completeSend_Latency now o result :
  Latency (completeSend now o result) = time_Since now (Timestamp result).
Proof.
  unfold completeSend, deferredSend, doRequest.
  destruct o; simpl; try done.
  destruct (_ || _); done.
Qed.

(** C4: a request built and transported without error and answered with
    status 200 is a success by the stated rule (and by the summary's
    [code_ok]), but the Result that [sendRequest] produces has
    [Success = false]: the field is never assigned. *)
Theorem sendRequest_200_not_success :
  let result := fst (sendRequest 10 25 (Response 200 "200 OK") lt0) in
  Code result = 200 /\ code_ok (Code result) = true /\ Error result = "" /\
  Success result = false.
Proof. vm_compute. repeat split; reflexivity. Qed.

(** C8: a build failure and a transport failure each give a failed Result
    with status code 0 and the error's text; a response whose status code
    is outside 200-399 gives a Result with that status code and the status
    text as error; a response inside 200-399 gives an empty error; and in
    every case the worker goes on: completing the request is enabled for
    every outcome, leaves the process running and the dispatcher where it
    was, and puts the worker at the push of its Result. *)
Theorem sendRequest_outcomes (r : Runner) (now_send now_done : Z) (lt : loadTest) :
  (forall e, let result := fst (sendRequest now_send now_done (BuildError e) lt) in
     Success result = false /\ Code result = 0 /\ Error result = e) /\
  (forall e, let result := fst (sendRequest now_send now_done (TransportError e) lt) in
     Success result = false /\ Code result = 0 /\ Error result = e) /\
  (forall sc st, 0 <= sc < 2 ^ 16 -> ~ 200 <= sc <= 399 ->
     let result := fst (sendRequest now_send now_done (Response sc st) lt) in
     Code result = sc /\ Error result = st) /\
  (forall sc st, 200 <= sc <= 399 ->
     let result := fst (sendRequest now_send now_done (Response sc st) lt) in
     Code result = sc /\ Error result = "") /\
  (forall s i result o, crashed s = None -> pool s !! i = Some (WInFlight result) ->
     exists s', step r (AWorkComplete i o) s = Some s' /\
       crashed s' = None /\ disp s' = disp s /\ main s' = main s /\
       pool s' !! i = Some (WPushing (completeSend (clock s) o result))).
Proof.
  assert (Hcode : forall sc, 0 <= sc < 2 ^ 16 ->
            (to_uint16 sc <? 200) || (to_uint16 sc >=? 400) = negb (code_ok sc)).
  { intros sc Hsc. rewrite to_uint16_id by done. unfold code_ok.
    destruct (Z.ltb_spec sc 200), (Z.geb_spec sc 200), (Z.geb_spec sc 400),
      (Z.ltb_spec sc 400); simpl; try done; lia. }
  split; [|split; [|split; [|split]]].
  - intros e. simpl. done.
  - intros e. simpl. done.
  - intros sc st Hsc Hout. cbv zeta. unfold sendRequest, enterSend, completeSend, doRequest.
    cbn [Code set_Code]. rewrite Hcode by done.
    replace (code_ok sc) with false.
    2:{ symmetry. unfold code_ok. apply andb_false_iff.
        destruct (Z.geb_spec sc 200); [|by left]. right. apply Z.ltb_ge. lia. }
    simpl. by rewrite to_uint16_id.
  - intros sc st Hsc. cbv zeta. unfold sendRequest, enterSend, completeSend, doRequest.
    cbn [Code set_Code]. rewrite Hcode by lia.
    replace (code_ok sc) with true.
    2:{ symmetry. unfold code_ok. apply andb_true_iff. split.
        - destruct (Z.geb_spec sc 200); [done|lia].
        - apply Z.ltb_lt. lia. }
    simpl. by rewrite to_uint16_id by lia.
  - intros s i result o Hc Hp. unfold step. rewrite Hc, Hp.
    eexists. split; [done|]. simpl. repeat split; try done.
    apply list_lookup_insert_eq. by eapply lookup_lt_Some.
Qed.

Lemma sendRequest_outcomes_witness :
  Code (fst (sendRequest 10 25 (Response 404 "404 Not Found") lt0)) = 404 /\
  Error (fst (sendRequest 10 25 (Response 404 "404 Not Found") lt0)) = "404 Not Found" /\
  Error (fst (sendRequest 10 25 (Response 302 "302 Found") lt0)) = "".
Proof.
  pose proof (sendRequest_outcomes (runner_qps 100) 10 25 lt0) as (_ & _ & Hout & Hin & _).
  split; [|split].
  - apply (Hout 404 "404 Not Found"); lia.
  - apply (Hout 404 "404 Not Found"); lia.
  - apply (Hin 302 "302 Found"); lia.
Defined.

(** ** Counting workers *)

Section Tally.

Variable f : wstate -> bool.

Lemma tally_app l1 l2 : tally f (l1 ++ l2) = tally f l1 + tally f l2.
Proof. induction l1 as [|w l1 IH]; simpl; lia. Qed.

Lemma tally_replicate n w : tally f (replicate n w) = Z.of_nat n * b2z (f w).
Proof. induction n as [|n IH]; simpl replicate; simpl tally; lia. Qed.

Lemma tally_bounds l : 0 <= tally f l <= Z.of_nat (length l).
Proof. induction l as [|w l IH]; simpl; [lia|]. unfold b2z. destruct (f w); lia. Qed.

Lemma tally_insert l i w w' :
  l !! i = Some w ->
  tally f (<[i:=w']> l) = tally f l - b2z (f w) + b2z (f w').
Proof.
  revert i. induction l as [|x l IH]; intros [|i] Hi; simplify_eq/=; [lia|].
  rewrite (IH _ Hi). lia.
Qed.

Lemma tally_pos l i w : l !! i = Some w -> f w = true -> 1 <= tally f l.
Proof.
  revert i. induction l as [|x l IH]; intros [|i] Hi Hf; simplify_eq/=.
  - rewrite Hf. pose proof (tally_bounds l). simpl. lia.
  - pose proof (IH _ Hi Hf). unfold b2z. destruct (f x); lia.
Qed.


End Tally.

Lemma held_all_app l1 l2 : held_all (l1 ++ l2) = held_all l1 ++ held_all l2.
Proof. unfold held_all. by rewrite map_app, concat_app. Qed.

Lemma held_all_replicate_idle n : held_all (replicate n WIdle) = [].
Proof. induction n as [|n IH]; [done|]. unfold held_all in *. simpl. done. Qed.

Lemma finished_all_replicate_idle n : finished_all (replicate n WIdle) = [].
Proof. induction n as [|n IH]; [done|]. unfold finished_all in *. simpl. done. Qed.

(** Replacing the state of worker [i] exchanges what it held. *)
Lemma held_all_insert l i w w' :
  l !! i = Some w ->
  held w ++ held_all (<[i:=w']> l) ≡ₚ held w' ++ held_all l.
Proof.
  revert i. induction l as [|x l IH]; intros [|i] Hi; simplify_eq/=.
  - unfold held_all. simpl. rewrite !app_assoc. f_equiv. apply Permutation_app_comm.
  - specialize (IH _ Hi). unfold held_all in *. simpl.
    rewrite !app_assoc.
    rewrite (Permutation_app_comm (held w) (held x)).
    rewrite (Permutation_app_comm (held w') (held x)).
    rewrite <- !app_assoc. by f_equiv.
Qed.

Lemma finished_all_insert l i w w' :
  l !! i = Some w ->
  finished w ++ finished_all (<[i:=w']> l) ≡ₚ finished w' ++ finished_all l.
Proof.
  revert i. induction l as [|x l IH]; intros [|i] Hi; simplify_eq/=.
  - unfold finished_all. simpl. rewrite !app_assoc. f_equiv. apply Permutation_app_comm.
  - specialize (IH _ Hi). unfold finished_all in *. simpl.
    rewrite !app_assoc.
    rewrite (Permutation_app_comm (finished w) (finished x)).
    rewrite (Permutation_app_comm (finished w') (finished x)).
    rewrite <- !app_assoc. by f_equiv.
Qed.

Lemma held_all_insert_idle l i w w' :
  l !! i = Some w -> held w = [] -> held w' = [] ->
  held_all (<[i:=w']> l) ≡ₚ held_all l.
Proof.
  intros Hi Hw Hw'. pose proof (held_all_insert l i w w' Hi) as H.
  by rewrite Hw, Hw' in H.
Qed.

Lemma held_all_insert_new l i w x :
  l !! i = Some w -> held w = [] ->
  held_all (<[i:=WInFlight x]> l) ≡ₚ x :: held_all l.
Proof.
  intros Hi Hw. pose proof (held_all_insert l i w (WInFlight x) Hi) as H.
  by rewrite Hw in H.
Qed.

Lemma held_all_insert_done l i x w' :
  l !! i = Some (WPushing x) -> held w' = [] ->
  held_all l ≡ₚ x :: held_all (<[i:=w']> l).
Proof.
  intros Hi Hw'. pose proof (held_all_insert l i _ w' Hi) as H.
  rewrite Hw' in H. simpl in H. by symmetry.
Qed.

Lemma stamps_insert_complete l i x x' :
  l !! i = Some (WInFlight x) -> stamp x' = stamp x ->
  map stamp (held_all (<[i:=WPushing x']> l)) ≡ₚ map stamp (held_all l).
Proof.
  intros Hi Hs. pose proof (held_all_insert l i _ (WPushing x') Hi) as H.
  simpl in H. apply (Permutation_map stamp) in H. simpl in H.
  rewrite Hs in H. by apply Permutation_cons_inv in H.
Qed.

Lemma finished_all_app l1 l2 : finished_all (l1 ++ l2) = finished_all l1 ++ finished_all l2.
Proof. unfold finished_all. by rewrite map_app, concat_app. Qed.

Lemma finished_all_insert_idle l i w w' :
  l !! i = Some w -> finished w = [] -> finished w' = [] ->
  finished_all (<[i:=w']> l) ≡ₚ finished_all l.
Proof.
  intros Hi Hw Hw'. pose proof (finished_all_insert l i w w' Hi) as H.
  by rewrite Hw, Hw' in H.
Qed.

Lemma finished_all_insert_new l i w x :
  l !! i = Some w -> finished w = [] ->
  finished_all (<[i:=WPushing x]> l) ≡ₚ x :: finished_all l.
Proof.
  intros Hi Hw. pose proof (finished_all_insert l i w (WPushing x) Hi) as H.
  by rewrite Hw in H.
Qed.

Lemma finished_all_insert_done l i x w' :
  l !! i = Some (WPushing x) -> finished w' = [] ->
  finished_all l ≡ₚ x :: finished_all (<[i:=w']> l).
Proof.
  intros Hi Hw'. pose proof (finished_all_insert l i _ w' Hi) as H.
  rewrite Hw' in H. simpl in H. by symmetry.
Qed.

(** What a worker holds is among the held Results. *)
Lemma held_all_elem l i w x : l !! i = Some w -> x ∈ held w -> x ∈ held_all l.
Proof.
  intros Hi Hx. unfold held_all. apply list_elem_of_In, in_concat.
  exists (held w). split; [|by apply list_elem_of_In].
  apply in_map, list_elem_of_In. by eapply list_elem_of_lookup_2.
Qed.

(** ** The transition system *)

(** Case analysis on an enabled step of a state given by its fields. *)
Ltac step_cases H :=
  unfold step, crash, dispatch_top, dispatch_wake, dispatch_tick, dispatch_spawn,
    exit_loop, finish_defer, main_recv, worker_enter, worker_exit, StartTest,
    close_chan, once_do_close in H;
  simpl in H;
  repeat (case_match; try discriminate; simplify_eq/=).

Lemma init_state_control r t0 : control_inv r (init_state t0).
Proof.
  split; simpl; try done; try lia; try tauto.
Qed.

(** A live worker makes the wait group positive. *)
Ltac live_workers :=
  repeat match goal with
         | H : ?l !! ?i = Some ?w |- _ =>
           lazymatch goal with
           | _ : 1 <= tally is_live l |- _ => fail
           | _ => assert (1 <= tally is_live l) by (by apply (tally_pos is_live l i w))
           end
         end.

Ltac use_hyps :=
  repeat match goal with
         | H : ?a = ?a -> _ |- _ => specialize (H eq_refl)
         | H : (?n <= ?m)%nat -> _ |- _ => specialize (H ltac:(lia))
         | H : _ /\ _ |- _ => destruct H
         | H : true = true <-> _ |- _ => destruct H as [H _]; specialize (H eq_refl)
         | H : ?b = true <-> (?n <= ?m)%nat |- _ =>
           let K := fresh in assert (K : b = true) by (apply H; lia); clear H
         | H : ?b = true <-> (?n <= ?m)%nat |- _ =>
           let K := fresh in
           assert (K : b = false)
             by (destruct b; [exfalso; destruct H as [H _]; specialize (H eq_refl); lia|done]);
           clear H
         end.

Ltac pool_rewrite :=
  rewrite ?length_insert, ?length_replicate, ?length_app, ?tally_app, ?tally_replicate;
  repeat (erewrite tally_insert by eassumption);
  simpl.

Ltac ci_fin :=
  first [ done | lia | congruence | by (exfalso; lia) | by (exfalso; congruence) ].

Ltac ci_auto :=
  simpl in *; live_workers; use_hyps; simplify_eq/=; pool_rewrite;
  first
    [ ci_fin
    | by (intros; simplify_eq/=; use_hyps; pool_rewrite; ci_fin)
    | by (split; intros; simplify_eq/=; use_hyps; ci_fin)
    | by (unfold b2z in *; intuition (first [lia | congruence | done]))
    | idtac ].

Lemma step_control r a s s' :
  wf_args (args r) ->
  control_inv r s -> step r a s = Some s' -> control_inv r s'.
Proof.
  intros Hwf Hinv H. destruct s as [? ? [? ?] ? ? ? ? ? ? ? ? ? ? ? ? ?].
  destruct Hinv. simpl in *.
  step_cases H.
  all: split; ci_auto.
  all: try (intros ->; use_hyps; subst;
            match goal with H : [] !! _ = Some _ |- _ => by rewrite lookup_nil in H end).
  all: destruct Hwf as (_ & _ & [? ?] & [? ?] & _).
  - rewrite Z2Nat.id by done. lia.
  - by rewrite Z2Nat.id.
  - intros _.
    match goal with H : _ && _ = true |- _ => apply andb_true_iff in H as [? ?%Z.ltb_lt] end.
    done.
  - rewrite to_uint64_id by (unfold is_uint64; lia). lia.
Qed.

(** ** Stamps *)

Lemma stamps_ok_permutation n c L L' :
  L ≡ₚ L' -> stamps_ok n c L -> stamps_ok n c L'.
Proof.
  intros HL [H1 H2 H3]. split.
  - by rewrite <- HL.
  - by rewrite <- HL.
  - intros p q Hp Hq. rewrite <- HL in Hp, Hq. by apply H3.
Qed.

Global Instance stamps_ok_perm n c : Proper ((≡ₚ) ==> iff) (stamps_ok n c).
Proof.
  intros L L' HL. split; apply stamps_ok_permutation; [done|by symmetry].
Qed.

Lemma Forall_perm {A} (P : A -> Prop) (l k : list A) :
  l ≡ₚ k -> Forall P l -> Forall P k.
Proof. intros Hp. by rewrite Hp. Qed.

Lemma stamps_ok_nil c : stamps_ok 0 c [].
Proof.
  split; simpl.
  - by rewrite seqZ_nil.
  - constructor.
  - intros p q Hp. by apply elem_of_nil in Hp.
Qed.

Lemma stamps_ok_advance n c c' L : c <= c' -> stamps_ok n c L -> stamps_ok n c' L.
Proof.
  intros Hc [H1 H2 H3]. split; [done| |done].
  eapply Forall_impl; [done|]. simpl. intros. lia.
Qed.

Lemma stamps_ok_seq_lt n c L p : stamps_ok n c L -> p ∈ L -> 0 <= fst p < n.
Proof.
  intros [H1 _ _] Hp.
  assert (fst p ∈ seqZ 0 n) as Hin.
  { rewrite <- H1. apply list_elem_of_In, in_map, list_elem_of_In, Hp. }
  apply elem_of_seqZ in Hin. lia.
Qed.

(** A send at clock reading [c] takes the next number. *)
Lemma stamps_ok_add n c L :
  0 <= n -> 0 <= c -> stamps_ok n c L -> stamps_ok (n + 1) c ((n, c) :: L).
Proof.
  intros Hn Hc HL. pose proof HL as [H1 H2 H3]. split.
  - simpl. rewrite H1.
    rewrite seqZ_app by lia. simpl.
    replace (seqZ n 1) with [n] by (rewrite seqZ_cons by lia; by rewrite seqZ_nil).
    apply Permutation_cons_append.
  - constructor; [simpl; lia|done].
  - intros p q [->|Hp]%elem_of_cons [->|Hq]%elem_of_cons Hlt; simpl in *.
    + lia.
    + pose proof (stamps_ok_seq_lt _ _ _ _ HL Hq). lia.
    + rewrite Forall_forall in H2. specialize (H2 _ Hp). lia.
    + by apply H3.
Qed.

Lemma time_Since_exact now t : 0 <= t <= now -> now <= MaxInt64 -> time_Since now t = now - t.
Proof.
  intros Ht Hn. unfold time_Since, time_Sub. simpl.
  destruct (Z.gtb_spec (now - t) MaxInt64); [lia|].
  destruct (Z.ltb_spec (now - t) MinInt64); [unfold MinInt64, MaxInt64 in *; lia|done].
Qed.

(** The pacer lets a count through only if it can be incremented. *)
Lemma pace_room r elapsed requests w :
  pace r elapsed requests = Some (w, false) -> requests < MaxUint64.
Proof.
  unfold pace. intros H.
  destruct (Z.ltb_spec requests
              (to_uint64 (to_uint64 (Qps (args r)) * to_uint64 (Z.quot elapsed Second))))
    as [Hb|Hb].
  - pose proof (to_uint64_range
      (to_uint64 (Qps (args r)) * to_uint64 (Z.quot elapsed Second))) as Hr.
    unfold is_uint64 in Hr. lia.
  - destruct (div_int64 _ _) as [q|]; [|done].
    unfold div_uint64 in H.
    destruct (Z.eqb_spec (to_uint64 q) 0) as [|Hq]; [done|].
    destruct (Z.ltb_spec (MaxInt64 / to_uint64 q) requests) as [|Hle]; [done|].
    pose proof (to_uint64_range q) as Hr. unfold is_uint64 in Hr.
    assert (MaxInt64 / to_uint64 q <= MaxInt64).
    { apply Z.div_le_upper_bound; [lia|]. unfold MaxInt64. nia. }
    unfold MaxInt64, MaxUint64 in *. lia.
Qed.

Lemma init_state_data t0 : 0 <= t0 <= MaxInt64 -> data_inv (init_state t0).
Proof.
  intros Ht. split; simpl; try done; try lia.
  apply stamps_ok_nil.
Qed.

(** Rewriting what the pool holds after a worker has moved. *)
Ltac pool_perm :=
  repeat match goal with
  | H : ?l !! ?i = Some ?w |- context [held_all (<[?i:=?w']> ?l)] =>
    rewrite (held_all_insert_idle l i w w' H) by done
  | H : ?l !! ?i = Some ?w |- context [finished_all (<[?i:=?w']> ?l)] =>
    rewrite (finished_all_insert_idle l i w w' H) by done
  | H : ?l !! ?i = Some ?w |- context [held_all (<[?i:=WInFlight ?x]> ?l)] =>
    rewrite (held_all_insert_new l i w x H) by done
  | H : ?l !! ?i = Some ?w |- context [finished_all (<[?i:=WPushing ?x]> ?l)] =>
    rewrite (finished_all_insert_new l i w x H) by done
  | |- context [held_all (_ ++ [WIdle])] => rewrite held_all_app; simpl held_all
  | |- context [finished_all (_ ++ [WIdle])] => rewrite finished_all_app; simpl finished_all
  | |- context [held_all (replicate _ WIdle)] => rewrite held_all_replicate_idle
  | |- context [finished_all (replicate _ WIdle)] => rewrite finished_all_replicate_idle
  end;
  rewrite ?app_nil_r.

Ltac di_auto :=
  simpl in *; use_hyps; simplify_eq/=; pool_rewrite; pool_perm;
  first
    [ ci_fin
    | by (intros; simplify_eq/=; use_hyps; pool_rewrite; ci_fin)
    | by apply stamps_ok_nil
    | idtac ].

Lemma uint64_succ n k : 0 <= n -> n + k <= MaxUint64 -> 1 <= k -> to_uint64 (n + 1) = n + 1.
Proof. intros. apply to_uint64_id. unfold is_uint64. lia. Qed.

Lemma sends_next n (l : list (Z * Z)) :
  0 <= n -> map fst l = reverse (seqZ 0 n) -> n :: map fst l = reverse (seqZ 0 (n + 1)).
Proof.
  intros Hn ->. rewrite seqZ_app by lia. rewrite reverse_app.
  rewrite (seqZ_cons (0 + n) 1) by lia.
  rewrite (seqZ_nil (Z.succ (0 + n)) (Z.pred 1)) by lia. done.
Qed.

Lemma step_data r a s s' :
  wf_args (args r) ->
  control_inv r s -> data_inv s -> step r a s = Some s' -> data_inv s'.
Proof.
  intros Hwf Hc Hd H. destruct s as [? [? ?] [? ?] ? ? ? ? ? ? ? ? ? ? ? ? ?].
  destruct Hc, Hd. unfold all_results, completed_results in *. simpl in *.
  step_cases H.
  all: try match goal with
           | H : _ !! _ = Some WGotTick |- _ =>
             pose proof (tally_pos got_tick _ _ _ H eq_refl)
           end.
  all: pose proof (tally_bounds got_tick pool0).
  all: split; unfold all_results, completed_results; di_auto.
  all: try match goal with
           | H : _ && _ = true |- _ =>
             apply andb_true_iff in H as [?%Z.leb_le ?%Z.leb_le]
           end.
  all: try (erewrite uint64_succ by (first [done | lia]); try lia).
  all: try match goal with
           | H : pace _ _ _ = Some (_, false) |- _ => intros _; by eapply pace_room
           end.
  all: try (rewrite to_uint64_id by (unfold is_uint64; lia); lia).
  - (* time passes *)
    eapply stamps_ok_advance; [|done]. lia.
  - (* a Result is received, the write fails *)
    eapply stamps_ok_permutation; [|done]. apply Permutation_map.
    rewrite (held_all_insert_done pool0 i result WIdle) by done.
    simpl. rewrite app_assoc. apply Permutation_cons_append.
  - eapply Forall_perm; [|done].
    rewrite (finished_all_insert_done pool0 i result WIdle) by done.
    simpl. rewrite app_assoc. apply Permutation_cons_append.
  - (* a Result is received and written *)
    eapply stamps_ok_permutation; [|done]. apply Permutation_map.
    rewrite (held_all_insert_done pool0 i result WIdle) by done.
    simpl. rewrite app_assoc. apply Permutation_cons_append.
  - eapply Forall_perm; [|done].
    rewrite (finished_all_insert_done pool0 i result WIdle) by done.
    simpl. rewrite app_assoc. apply Permutation_cons_append.
  - (* the critical section *)
    simpl. unfold stamp at 1. simpl. unfold time_Add.
    rewrite time_Since_exact by lia.
    replace (began0 + (clock0 - began0)) with clock0 by lia.
    apply stamps_ok_add; [lia|lia|done].
  - by apply sends_next.
  - (* the request completes *)
    eapply stamps_ok_permutation; [|done].
    rewrite !map_app. apply Permutation_app_tail. symmetry.
    apply (stamps_insert_complete pool0 i result); [done|].
    unfold stamp. by rewrite completeSend_Seq, completeSend_Timestamp.
  - simpl. constructor; [|done].
    rewrite completeSend_Latency.
    assert (0 <= Timestamp result <= clock0) as Hts.
    { destruct di_stamps0 as [_ Hr _]. rewrite Forall_forall in Hr.
      apply (Hr (stamp result)).
      apply list_elem_of_In, in_map, list_elem_of_In, elem_of_app. left.
      eapply held_all_elem; [done|]. simpl. by apply list_elem_of_singleton. }
    rewrite time_Since_exact by lia. lia.
Qed.

(** ** Traces *)

Lemma shutdown_mark (lg : list event) (n : nat) (e : event) (x : shutdown_step) :
  omap shutdown_of lg = reverse (take n shutdown_order) ->
  e ∈ lg -> shutdown_of e = Some x -> x ∈ take n shutdown_order.
Proof.
  intros Hlg He Hx.
  assert (x ∈ omap shutdown_of lg) as Hin by (apply list_elem_of_omap; eauto).
  rewrite Hlg in Hin. by rewrite elem_of_reverse in Hin.
Qed.

Ltac no_elem H :=
  simpl in H;
  repeat (apply elem_of_cons in H as [H|H]; [discriminate H|]);
  by apply elem_of_nil in H.

Lemma joined_phase lg n :
  omap shutdown_of lg = reverse (take n shutdown_order) ->
  EvJoined ∈ lg -> (3 <= n)%nat.
Proof.
  intros Hlg He. pose proof (shutdown_mark lg n _ SJoined Hlg He eq_refl) as Hin.
  do 3 (destruct n as [|n]; [no_elem Hin|]). lia.
Qed.

Lemma closed_phase lg n :
  omap shutdown_of lg = reverse (take n shutdown_order) ->
  EvCloseResults ∈ lg -> (4 <= n)%nat.
Proof.
  intros Hlg He. pose proof (shutdown_mark lg n _ SCloseResults Hlg He eq_refl) as Hin.
  do 4 (destruct n as [|n]; [no_elem Hin|]). lia.
Qed.

Lemma init_state_trace t0 : trace_inv (init_state t0).
Proof. split; simpl; done. Qed.

Lemma step_trace r a s s' :
  control_inv r s -> trace_inv s -> step r a s = Some s' -> trace_inv s'.
Proof.
  intros Hc Ht H.
  pose proof (joined_phase _ _ (ti_shutdown _ Ht)) as Hj.
  pose proof (closed_phase _ _ (ti_shutdown _ Ht)) as Hcl.
  destruct s as [? [? ?] [? ?] ? ? ? ? ? ? ? ? ? ? ? ? ?].
  destruct Hc, Ht. simpl in *.
  step_cases H.
  all: live_workers.
  all: split; simpl; try done.
  all: try (match goal with
            | |- context [list_omap _ _ ?f ?l] => change (list_omap _ _ f l) with (omap f l)
            end; rewrite ti_shutdown0; done).
  all: try (use_hyps; by subst).
  all: try (split; [|done]; intros _ Hin).
  all: try (apply Hj in Hin; simpl in Hin; use_hyps; ci_fin).
  all: try (apply Hcl in Hin; simpl in Hin; use_hyps; ci_fin).
Qed.

(** ** Scaling *)

(** One step changes the count of workers by nothing, or by one in the
    default case of the non-blocking select. *)
Lemma step_workers r a s s' :
  wf_args (args r) -> control_inv r s ->
  main s <> MInit -> step r a s = Some s' ->
  workers s' = workers s \/
  (a = ADispSpawn /\ AutoScale (args r) = true /\
   workers s < MaxWorkers (args r) /\ workers s' = workers s + 1).
Proof.
  intros Hwf Hc Hm H. destruct s as [? [? ?] [? ?] ? ? ? ? ? ? ? ? ? ? ? ? ?].
  destruct Hc. simpl in *.
  step_cases H; try (by left).
  right. use_hyps. destruct Hwf as (_ & _ & _ & [? ?] & _).
  repeat split; try done.
  rewrite to_uint64_id by (unfold is_uint64; lia). done.
Qed.

Lemma init_state_scale r t0 : scale_inv r (init_state t0).
Proof. split; simpl; done. Qed.

Lemma step_scale r a s s' :
  wf_args (args r) -> control_inv r s ->
  scale_inv r s -> step r a s = Some s' -> scale_inv r s'.
Proof.
  intros Hwf Hc [Hi Hmax] H.
  assert (main s = MInit \/ main s <> MInit) as [Hm|Hm]
    by (destruct (main s); (by left) || (by right)).
  - destruct s as [? [? ?] [? ?] ? ? ? ? ? ? ? ? ? ? ? ? ?]. simpl in *. subst.
    step_cases H; split; simpl; try done; lia.
  - assert (main s' <> MInit) as Hm'.
    { clear -H Hm. destruct s as [? [? ?] [? ?] ? ? ? ? ? ? ? ? ? ? ? ? ?]. simpl in *.
      step_cases H; simpl; done. }
    destruct (step_workers r a s s' Hwf Hc Hm H) as [Heq|(_ & _ & Hlt & Heq)].
    + split; rewrite Heq; auto.
    + split; intros; rewrite Heq.
      * specialize (Hi Hm). lia.
      * lia.
Qed.

(** ** Reachable states *)

Lemma step_run_inv r a s s' :
  wf_args (args r) -> run_inv r s -> step r a s = Some s' -> run_inv r s'.
Proof.
  intros Hwf [Hc Hd Ht Hs] H. split.
  - by eapply step_control.
  - by eapply step_data.
  - by eapply step_trace.
  - by eapply step_scale.
Qed.

Lemma run_run_inv r sched s s' :
  wf_args (args r) -> run_inv r s -> run r sched s = Some s' -> run_inv r s'.
Proof.
  intros Hwf. revert s. induction sched as [|a sched IH]; intros s Hinv H; simpl in H.
  - by simplify_eq.
  - destruct (step r a s) as [s1|] eqn:Hstep; [|done].
    eapply IH; [|done]. by eapply step_run_inv.
Qed.

Lemma reachable_run_inv r s :
  wf_args (args r) -> reachable r s -> run_inv r s.
Proof.
  intros Hwf (t0 & sched & Ht & H).
  eapply run_run_inv; [done| |done].
  split.
  - apply init_state_control.
  - by apply init_state_data.
  - apply init_state_trace.
  - apply init_state_scale.
Qed.

Lemma run_app r sched1 sched2 s :
  run r (sched1 ++ sched2) s =
  match run r sched1 s with
  | Some s1 => run r sched2 s1
  | None => None
  end.
Proof.
  revert s. induction sched1 as [|a sched1 IH]; intros s; simpl; [done|].
  destruct (step r a s); [apply IH|done].
Qed.

Lemma reachable_run r sched s s' :
  reachable r s -> run r sched s = Some s' -> reachable r s'.
Proof.
  intros (t0 & sched0 & Ht & H0) H. exists t0, (sched0 ++ sched).
  split; [done|]. by rewrite run_app, H0.
Qed.

Lemma quiet_after_trace mark lg l1 l2 :
  quiet_after mark lg -> reverse lg = l1 ++ mark :: l2 ->
  Forall (fun e => is_worker_event e = false) l2.
Proof.
  revert l2. induction lg as [|e lg IH]; intros l2 Hq Hrev.
  - by destruct l1.
  - rewrite reverse_cons in Hrev. destruct Hq as [Hhead Hq].
    destruct l2 as [|e' l2 _] using rev_ind; [constructor|].
    change (l1 ++ mark :: l2 ++ [e']) with (l1 ++ (mark :: l2) ++ [e']) in Hrev.
    rewrite app_assoc in Hrev.
    apply app_inj_tail in Hrev as [Hrev ->].
    apply Forall_app. split; [by apply IH|].
    constructor; [|constructor].
    destruct (is_worker_event e') eqn:He; [|done].
    exfalso. apply Hhead; [done|].
    apply elem_of_reverse. rewrite Hrev. apply elem_of_app. right. by left.
Qed.

(** An idle wait group means a pool of returned workers, holding nothing. *)
Lemma tally_live_zero l :
  tally is_live l = 0 -> Forall (fun w => w = WDone) l /\ held_all l = [].
Proof.
  induction l as [|w l IH]; intros H; [by split|].
  simpl in H. pose proof (tally_bounds is_live l).
  destruct w; simpl in H; try lia.
  destruct IH as [IH1 IH2]; [lia|].
  split; [by constructor|]. unfold held_all in *. simpl. done.
Qed.


Lemma omap_reverse {A B} (f : A -> option B) (l : list A) :
  omap f (reverse l) = reverse (omap f l).
Proof.
  induction l as [|x l IH]; [done|].
  rewrite reverse_cons, omap_app, IH. simpl.
  destruct (f x); simpl; [by rewrite reverse_cons|by rewrite app_nil_r].
Qed.

Lemma stamps_ok_length n c L : 0 <= n -> stamps_ok n c L -> Z.of_nat (length L) = n.
Proof.
  intros Hn [H1 _ _]. apply Permutation_length in H1.
  rewrite length_map, length_seqZ in H1. lia.
Qed.

(** A shutdown step occurs at most once in a trace. *)
Lemma shutdown_once tr n l1 l2 e x :
  omap shutdown_of tr = take n shutdown_order ->
  tr = l1 ++ e :: l2 -> shutdown_of e = Some x ->
  forall e', e' ∈ l1 ++ l2 -> shutdown_of e' <> Some x.
Proof.
  intros Htr -> Hx e' He' Hx'.
  assert (NoDup (take n shutdown_order)) as Hnd.
  { eapply (sublist_NoDup _ shutdown_order); [|apply sublist_take].
    unfold shutdown_order. repeat (constructor; [intros Hin; no_elem Hin|]).
    constructor. }
  rewrite <- Htr, omap_app in Hnd. simpl in Hnd. rewrite Hx in Hnd.
  apply NoDup_app in Hnd as (_ & Hdis & Hnd2).
  apply NoDup_cons in Hnd2 as [Hnotin _].
  apply elem_of_app in He' as [He'|He'].
  - apply (Hdis x); [apply list_elem_of_omap; eauto|by left].
  - apply Hnotin. apply list_elem_of_omap. eauto.
Qed.

(** ** Concrete runs *)

Lemma demo_wf : wf_args (args demo_runner).
Proof. vm_compute. repeat split; congruence. Defined.

Lemma nofile_wf : wf_args (args nofile_runner).
Proof. vm_compute. repeat split; congruence. Defined.

Lemma demo_reachable : reachable demo_runner demo_state.
Proof. exists 0, demo_schedule. split; [vm_compute; split; congruence|vm_compute; reflexivity]. Defined.

Lemma nofile_reachable : reachable nofile_runner nofile_state.
Proof. exists 0, nofile_schedule. split; [vm_compute; split; congruence|vm_compute; reflexivity]. Defined.

Lemma race_reachable : reachable demo_runner race_state.
Proof. exists 0, race_schedule. split; [vm_compute; split; congruence|vm_compute; reflexivity]. Defined.

Example demo_trace :
  trace demo_state =
  [ EvSpawn 1; EvTick 1; EvSend 1 0 10000000;
    EvPush (mkResult false 3000 10000000 0 "" 200);
    EvLoopExit DurationExpired; EvCloseTicks; EvWorkerExit 0; EvWorkerExit 1;
    EvJoined; EvCloseResults; EvStop ByDispatcher true ] /\
  main demo_state = MReturned RetNil /\ workers demo_state = 2.
Proof. vm_compute. repeat split; reflexivity. Qed.

(** Two calls of [Stop] that overlap both return true. *)
Example stop_overlapping_calls :
  EvStop ByMain true ∈ trace race_state /\
  EvStop ByDispatcher true ∈ trace race_state /\
  crashed race_state = None.
Proof.
  vm_compute. split; [|split; [|done]].
  - repeat first [by left | right].
  - repeat first [by left | right].
Qed.

(** ** Sequence numbers, timestamps and latencies *)

(** C2: in every reachable state of a run, the sends, in the order in
    which they happened, carry the sequence numbers 0, 1, 2, ... (one per
    critical section of [sendRequest]); the Results in existence carry
    distinct sequence numbers; of two Results the one with the smaller
    sequence number has the earlier or equal timestamp; every completed
    Result has a latency of at least 0; and once the sink is closed the n
    Results received carry exactly the sequence numbers 0, ..., n-1. *)
Theorem sequence_numbers (r : Runner) (s : state) :
  wf_args (args r) -> reachable r s ->
  (results_closed s = true ->
     map Seq (resultList s) ≡ₚ seqZ 0 (Z.of_nat (length (resultList s)))) /\
  map fst (sends (trace s)) = seqZ 0 (seq (lt s)) /\
  NoDup (map Seq (all_results s)) /\
  (forall x y, x ∈ all_results s -> y ∈ all_results s ->
     Seq x < Seq y -> Timestamp x <= Timestamp y) /\
  (forall x, x ∈ completed_results s -> 0 <= Latency x) /\
  (forall x, x ∈ resultList s -> x ∈ all_results s /\ x ∈ completed_results s).
Proof.
  intros Hwf Hreach.
  destruct (reachable_run_inv r s Hwf Hreach) as [Hc Hd _ _].
  pose proof (di_stamps _ Hd) as Hst. pose proof Hst as [Hseqs Hrange Horder].
  assert (map Seq (all_results s) = map fst (map stamp (all_results s))) as Hmap.
  { rewrite map_map. done. }
  split; [|split; [|split; [|split; [|split]]]].
  - intros Hclosed.
    apply (ci_results _ _ Hc) in Hclosed.
    assert (wg s = 0) as Hwg by (apply (ci_joined _ _ Hc); lia).
    rewrite (ci_wg _ _ Hc) in Hwg.
    apply tally_live_zero in Hwg as [_ Hheld].
    unfold all_results in *. rewrite Hheld in *. simpl in *.
    rewrite Hmap, Hseqs.
    pose proof (stamps_ok_length _ _ _ (di_seq _ Hd) Hst) as Hlen.
    rewrite length_map in Hlen. by rewrite Hlen.
  - unfold trace, sends. rewrite omap_reverse.
    change (map fst (reverse (omap send_of (log s))))
      with (fst <$> reverse (sends (log s))).
    rewrite fmap_reverse.
    change (fst <$> sends (log s)) with (map fst (sends (log s))).
    rewrite (di_sends _ Hd). apply reverse_involutive.
  - rewrite Hmap. rewrite Hseqs. apply NoDup_seqZ.
  - intros x y Hx Hy Hlt.
    apply (Horder (stamp x) (stamp y)); [| |done].
    + apply list_elem_of_In, in_map, list_elem_of_In, Hx.
    + apply list_elem_of_In, in_map, list_elem_of_In, Hy.
  - intros x Hx. pose proof (di_latency _ Hd) as Hl.
    rewrite Forall_forall in Hl. by apply Hl.
  - intros x Hx. unfold all_results, completed_results.
    split; apply elem_of_app; by right.
Qed.

Lemma sequence_numbers_witness :
  map Seq (resultList demo_state) ≡ₚ seqZ 0 (Z.of_nat (length (resultList demo_state))) /\
  map fst (sends (trace demo_state)) = seqZ 0 (seq (lt demo_state)).
Proof.
  pose proof (sequence_numbers demo_runner demo_state demo_wf demo_reachable)
    as (Hclosed & Hsends & _).
  split; [apply Hclosed; reflexivity|exact Hsends].
Defined.

(** ** The pool *)



(** ** Shutdown *)

(** Leaving the dispatch loop, for whatever reason, enters the deferred
    function at [close(ticks)]. *)
Lemma loop_exit_enters_defer r a s s' :
  step r a s = Some s' ->
  nphase (disp s) = 0%nat -> nphase (disp s') <> 0%nat ->
  disp s' = DCloseTicks /\ exists why, log s' = EvLoopExit why :: log s.
Proof.
  intros H H0 H1. destruct s as [? [? ?] [? ?] ? ? ? ? ? ? ? ? ? ? ? ? ?]. simpl in *.
  step_cases H; simpl in *; try done; eauto.
Qed.

(** Each of the three ways out of the loop is taken when its condition
    holds. *)
Lemma loop_exits r s :
  crashed s = None ->
  (disp s = DTop -> Duration (args r) > 0 ->
   time_Since (clock s) (began (lt s)) > Duration (args r) ->
   step r ADispTop s = Some (exit_loop DurationExpired s)) /\
  (disp s = DTop ->
   ~ (Duration (args r) > 0 /\ time_Since (clock s) (began (lt s)) > Duration (args r)) ->
   (exists w, pace r (time_Since (clock s) (began (lt s))) (count s) = Some (w, true)) ->
   step r ADispTop s = Some (exit_loop PaceStop s)) /\
  (disp s = DTrySend \/ disp s = DBlockSend -> stopch_closed (stop s) = true ->
   step r ADispSeeStop s = Some (exit_loop StopObserved s)).
Proof.
  intros Hc. unfold step. rewrite Hc. split; [|split].
  - intros -> Hd He. unfold dispatch_top.
    destruct (Z.gtb_spec (Duration (args r)) 0); [|lia].
    destruct (Z.gtb_spec (time_Since (clock s) (began (lt s))) (Duration (args r))); [|lia].
    done.
  - intros -> Hn [w Hw]. unfold dispatch_top. rewrite Hw.
    destruct (Z.gtb_spec (Duration (args r)) 0);
      destruct (Z.gtb_spec (time_Since (clock s) (began (lt s))) (Duration (args r)));
      simpl; try done.
    exfalso. apply Hn. lia.
  - intros [->| ->] ->; done.
Qed.

(** C7: in every reachable state, the shutdown steps that the dispatcher
    has taken are an initial segment of: loop exit, close of the tick
    channel, join of the workers, close of the result sink, [Stop]; every
    way out of the loop starts that sequence; at the join every worker
    has returned, and nothing happens in the pool after it; so no Result
    is pushed after the close of the sink, the sink is closed at most once,
    and no goroutine panics on a closed channel. *)
Theorem shutdown_in_order (r : Runner) (s : state) :
  wf_args (args r) -> reachable r s ->
  omap shutdown_of (trace s) = take (nphase (disp s)) shutdown_order /\
  (forall a s', step r a s = Some s' ->
     nphase (disp s) = 0%nat -> nphase (disp s') <> 0%nat ->
     disp s' = DCloseTicks /\ exists why, log s' = EvLoopExit why :: log s) /\
  (EvJoined ∈ trace s -> Forall (fun w => w = WDone) (pool s)) /\
  (forall l1 l2, trace s = l1 ++ EvJoined :: l2 ->
     Forall (fun e => is_worker_event e = false) l2) /\
  (forall l1 l2 result, trace s = l1 ++ EvCloseResults :: l2 -> EvPush result ∉ l2) /\
  (forall l1 l2, trace s = l1 ++ EvCloseResults :: l2 -> EvCloseResults ∉ l1 ++ l2) /\
  (results_closed s = true <-> EvCloseResults ∈ trace s) /\
  crashed s <> Some SendOnClosedChannel /\ crashed s <> Some CloseOfClosedChannel.
Proof.
  intros Hwf Hreach.
  destruct (reachable_run_inv r s Hwf Hreach) as [Hc _ Ht _].
  assert (omap shutdown_of (trace s) = take (nphase (disp s)) shutdown_order) as Hord.
  { unfold trace. rewrite omap_reverse, (ti_shutdown _ Ht). apply reverse_involutive. }
  split; [done|]. split; [intros a s'; apply loop_exit_enters_defer|].
  split; [|split; [|split; [|split; [|split]]]].
  - intros Hj. unfold trace in Hj. rewrite elem_of_reverse in Hj.
    pose proof (joined_phase _ _ (ti_shutdown _ Ht) Hj) as Hp.
    pose proof (ci_joined _ _ Hc Hp) as Hwg. rewrite (ci_wg _ _ Hc) in Hwg.
    by apply tally_live_zero in Hwg as [? _].
  - intros l1 l2. apply quiet_after_trace, (ti_quiet_join _ Ht).
  - intros l1 l2 result Htr Hin.
    pose proof (quiet_after_trace _ _ _ _ (ti_quiet_close _ Ht) Htr) as Hq.
    rewrite Forall_forall in Hq. by specialize (Hq _ Hin).
  - intros l1 l2 Htr Hin.
    by apply (shutdown_once _ _ _ _ _ _ Hord Htr eq_refl EvCloseResults Hin).
  - rewrite (ci_results _ _ Hc). unfold trace. rewrite elem_of_reverse. split.
    + intros Hp.
      assert (SCloseResults ∈ omap shutdown_of (log s)) as Hin.
      { rewrite (ti_shutdown _ Ht), elem_of_reverse.
        destruct (nphase (disp s)) as [|[|[|[|[|n]]]]]; try lia;
          simpl; repeat first [by left | right]. }
      apply list_elem_of_omap in Hin as (e & He & Hsh).
      destruct e as [| | | | | | | | |[]]; simpl in Hsh; try done.
    + apply closed_phase, (ti_shutdown _ Ht).
  - destruct (ci_crash _ _ Hc) as [-> | ->]; done.
Qed.

Lemma shutdown_in_order_witness :
  omap shutdown_of (trace demo_state) = shutdown_order /\
  Forall (fun w => w = WDone) (pool demo_state) /\
  (forall l1 l2 result,
     trace demo_state = l1 ++ EvCloseResults :: l2 -> EvPush result ∉ l2).
Proof.
  pose proof (shutdown_in_order demo_runner demo_state demo_wf demo_reachable)
    as (Hord & _ & Hjoin & _ & Hpush & _).
  split; [exact Hord|split; [|exact Hpush]].
  apply Hjoin. vm_compute. repeat first [by left | right].
Defined.

(** ** Opening the output *)

(** Once [Run] has returned it takes no further step. *)
Lemma returned_stays r a s s' ret :
  main s = MReturned ret -> step r a s = Some s' -> main s' = MReturned ret.
Proof.
  intros Hm H. destruct s as [? [? ?] [? ?] ? ? ? ? ? ? ? ? ? ? ? ? ?]. simpl in *.
  subst. step_cases H; simpl; done.
Qed.

(** C5 (as amended): when the output cannot be opened, [Run] returns the
    error, wrapped with the file name, to its caller; it has then received
    no Result and written none, and it never does afterwards. *)
Theorem open_failure_is_returned (r : Runner) (s : state) :
  wf_args (args r) -> reachable r s ->
  (forall oscreate err,
     crashed s = None -> main s = MCreateWriter ->
     createWriter (OutputFile (args r)) oscreate = Some err ->
     exists s', step r (AMainCreateWriter oscreate) s = Some s' /\
       main s' = MReturned (RetOpenError (open_error (OutputFile (args r)) err)) /\
       run_error (RetOpenError (open_error (OutputFile (args r)) err))
         = Some (open_error (OutputFile (args r)) err)) /\
  (forall e, main s = MReturned (RetOpenError e) ->
     resultList s = [] /\ written s = [] /\
     forall sched s', run r sched s = Some s' ->
       main s' = MReturned (RetOpenError e) /\ resultList s' = [] /\ written s' = []).
Proof.
  intros Hwf Hreach. split.
  - intros oscreate err Hc Hm Hcw. unfold step. rewrite Hc, Hm, Hcw. eauto.
  - intros e Hm.
    assert (forall s1, reachable r s1 -> main s1 = MReturned (RetOpenError e) ->
              resultList s1 = [] /\ written s1 = []) as Hempty.
    { intros s1 Hr1 Hm1.
      destruct (reachable_run_inv r s1 Hwf Hr1) as [_ _ Ht _].
      apply (ti_before_loop _ Ht). by rewrite Hm1. }
    destruct (Hempty s Hreach Hm) as [Hrl Hw]. split; [done|split; [done|]].
    intros sched s' Hrun.
    assert (main s' = MReturned (RetOpenError e)) as Hm'.
    { clear -Hm Hrun. revert s Hm Hrun.
      induction sched as [|a sched IH]; intros s Hm Hrun; simpl in Hrun.
      - by simplify_eq.
      - destruct (step r a s) as [s1|] eqn:Hstep; [|done].
        eapply IH; [|done]. by eapply returned_stays. }
    split; [done|]. apply Hempty; [|done]. by eapply reachable_run.
Qed.

Lemma open_failure_is_returned_witness :
  main nofile_state
    = MReturned (RetOpenError
        "error opening /nonexistent/out.csv: open /nonexistent/out.csv: no such file or directory") /\
  resultList nofile_state = [] /\ written nofile_state = [].
Proof.
  split; [reflexivity|].
  pose proof (open_failure_is_returned nofile_runner nofile_state nofile_wf nofile_reachable)
    as [_ Hret].
  destruct (Hret _ eq_refl) as (Hrl & Hw & _). split; [exact Hrl|exact Hw].
Defined.

(** C5, as stated, fails: the dispatcher and a worker of [StartTest] run
    before [Run] opens the output, so a request has been issued (sequence
    number 0, at 10 ms) when the open fails and [Run] returns the error. *)
Lemma open_failure_counterexample :
  reachable nofile_runner nofile_state /\
  (exists e, main nofile_state = MReturned (RetOpenError e)) /\
  sends (trace nofile_state) = [(0, 10000000)] /\
  seq (lt nofile_state) = 1.
Proof.
  split; [apply nofile_reachable|].
  split; [eexists; reflexivity|]. split; reflexivity.
Qed.

(** ** Stop *)

Lemma Stop_calls_closed n st :
  stopch_closed st = true -> Stop_calls n st = Some (replicate n false, st).
Proof.
  intros Hc. induction n as [|n IH]; simpl; [done|].
  unfold Stop. rewrite Hc, IH. done.
Qed.

(** C6: the first call of [Stop] closes the stop channel and returns
    true; every later call finds it closed, changes nothing and returns
    false; no sequence of calls panics; and in a run, where the calls of
    [Run] and of the dispatcher may interleave, the channel is never
    closed twice. *)
Theorem Stop_idempotent :
  Stop new_stopper = Some (true, mkStopper true true) /\
  (forall st, stopch_closed st = true -> Stop st = Some (false, st)) /\
  (forall n, Stop_calls (S n) new_stopper
             = Some (true :: replicate n false, mkStopper true true)) /\
  (forall r s, wf_args (args r) -> reachable r s ->
     crashed s <> Some CloseOfClosedChannel /\
     once_done (stop s) = stopch_closed (stop s)).
Proof.
  split; [reflexivity|]. split; [|split].
  - intros st Hc. unfold Stop. by rewrite Hc.
  - intros n. simpl. by rewrite Stop_calls_closed.
  - intros r s Hwf Hreach.
    destruct (reachable_run_inv r s Hwf Hreach) as [Hc _ _ _].
    split; [|apply (ci_once _ _ Hc)].
    destruct (ci_crash _ _ Hc) as [-> | ->]; done.
Qed.

Lemma Stop_idempotent_witness :
  Stop (mkStopper true true) = Some (false, mkStopper true true) /\
  crashed demo_state <> Some CloseOfClosedChannel.
Proof.
  pose proof Stop_idempotent as (_ & Hsecond & _ & Hrun).
  split; [apply Hsecond; reflexivity|].
  apply (Hrun demo_runner demo_state demo_wf demo_reachable).
Defined.

(** ** The shutdown can always be completed

    While [Run] is in its receive loop, every worker can be drained: it
    finishes the request it has, hands over its Result and returns. *)

Lemma tally_pos_exists f l :
  0 < tally f l -> exists i w, l !! i = Some w /\ f w = true.
Proof.
  induction l as [|x l IH]; simpl; [lia|]. intros H.
  destruct (f x) eqn:Hx.
  - by exists 0%nat, x.
  - simpl in H. destruct IH as (i & w & Hi & Hw); [lia|]. by exists (S i), w.
Qed.

Lemma draining_flags r s :
  draining r s -> ticks_closed s = true /\ results_closed s = false.
Proof.
  intros (Hc & _ & Hd & _). split.
  - apply (ci_ticks _ _ Hc). rewrite Hd. simpl. lia.
  - destruct (results_closed s) eqn:Hr; [|done].
    apply (ci_results _ _ Hc) in Hr. rewrite Hd in Hr. simpl in Hr. lia.
Qed.

Lemma drain_returning r s i w :
  wf_args (args r) -> draining r s ->
  pool s !! i = Some w -> w = WIdle \/ w = WParked ->
  drained_one r s.
Proof.
  intros Hwf Hdr Hi Hw. pose proof (draining_flags r s Hdr) as [Ht Hr].
  destruct Hdr as (Hc & Hcr & Hd & Hm).
  assert (1 <= wg s) as Hwg.
  { rewrite (ci_wg _ _ Hc). eapply tally_pos; [done|]. by destruct Hw as [-> | ->]. }
  assert (step r (AWorkExit i) s
          = Some (emit (EvWorkerExit i) (set_wg (wg s - 1) (set_pool (<[i:=WDone]> (pool s)) s))))
    as Hstep.
  { unfold step, worker_exit. rewrite Hcr, Hi, Ht.
    destruct (Z.ltb_spec (wg s - 1) 0); [lia|]. by destruct Hw as [-> | ->]. }
  eexists [AWorkExit i], _. split; [simpl; by rewrite Hstep|].
  split; [|done].
  split; [by eapply step_control|]. done.
Qed.

Lemma drain_pushing r s i result :
  wf_args (args r) -> draining r s ->
  pool s !! i = Some (WPushing result) ->
  drained_one r s.
Proof.
  intros Hwf Hdr Hi. pose proof (draining_flags r s Hdr) as [Ht Hr].
  pose proof Hdr as (Hc & Hcr & Hd & Hm).
  set (s1 := main_recv i result None s).
  assert (step r (AMainRecv i None) s = Some s1) as Hstep.
  { unfold step. by rewrite Hcr, Hm, Hi, Hr. }
  assert (draining r s1) as Hdr1.
  { split; [by eapply step_control|]. done. }
  assert (pool s1 !! i = Some WIdle) as Hi1.
  { simpl. apply list_lookup_insert_eq. by eapply lookup_lt_Some. }
  destruct (drain_returning r s1 i WIdle Hwf Hdr1 Hi1) as (sched & s' & Hrun & Hdr' & Hwg);
    [by left|].
  exists (AMainRecv i None :: sched), s'. simpl. rewrite Hstep. done.
Qed.

Lemma drain_inflight r s i result :
  wf_args (args r) -> draining r s ->
  pool s !! i = Some (WInFlight result) ->
  drained_one r s.
Proof.
  intros Hwf Hdr Hi. pose proof Hdr as (Hc & Hcr & Hd & Hm).
  set (o := Response 200 "200 OK").
  set (s1 := set_pool (<[i:=WPushing (completeSend (clock s) o result)]> (pool s)) s).
  assert (step r (AWorkComplete i o) s = Some s1) as Hstep.
  { unfold step. by rewrite Hcr, Hi. }
  assert (draining r s1) as Hdr1.
  { split; [by eapply step_control|]. done. }
  assert (pool s1 !! i = Some (WPushing (completeSend (clock s) o result))) as Hi1.
  { simpl. apply list_lookup_insert_eq. by eapply lookup_lt_Some. }
  destruct (drain_pushing r s1 i _ Hwf Hdr1 Hi1) as (sched & s' & Hrun & Hdr' & Hwg).
  exists (AWorkComplete i o :: sched), s'. simpl. rewrite Hstep. done.
Qed.

Lemma drain_gottick r s i :
  wf_args (args r) -> draining r s ->
  pool s !! i = Some WGotTick ->
  drained_one r s.
Proof.
  intros Hwf Hdr Hi. pose proof Hdr as (Hc & Hcr & Hd & Hm).
  set (s1 := worker_enter i s).
  assert (step r (AWorkEnter i) s = Some s1) as Hstep.
  { unfold step. by rewrite Hcr, Hi. }
  assert (draining r s1) as Hdr1.
  { split; [by eapply step_control|]. done. }
  assert (exists result, pool s1 !! i = Some (WInFlight result)) as [result Hi1].
  { eexists. unfold s1, worker_enter. simpl.
    apply list_lookup_insert_eq. by eapply lookup_lt_Some. }
  destruct (drain_inflight r s1 i _ Hwf Hdr1 Hi1) as (sched & s' & Hrun & Hdr' & Hwg).
  exists (AWorkEnter i :: sched), s'. simpl. rewrite Hstep. done.
Qed.

Lemma drain_pool r n s :
  wf_args (args r) -> draining r s -> wg s = Z.of_nat n ->
  exists sched s', run r sched s = Some s' /\ draining r s' /\ wg s' = 0.
Proof.
  intros Hwf. revert s. induction n as [|n IH]; intros s Hdr Hwg.
  - by exists [], s.
  - pose proof Hdr as (Hc & _).
    destruct (tally_pos_exists is_live (pool s)) as (i & w & Hi & Hlive).
    { rewrite <- (ci_wg _ _ Hc). lia. }
    assert (drained_one r s) as (sched1 & s1 & Hrun1 & Hdr1 & Hwg1).
    { destruct w; try done.
      - by eapply drain_returning; eauto.
      - by eapply drain_returning; eauto.
      - by eapply drain_gottick.
      - by eapply drain_inflight.
      - by eapply drain_pushing. }
    destruct (IH s1 Hdr1) as (sched2 & s2 & Hrun2 & Hdr2 & Hwg2); [lia|].
    exists (sched1 ++ sched2), s2. by rewrite run_app, Hrun1.
Qed.

(** From the join on, the dispatcher finishes on its own. *)
Lemma finish_from_wait r s :
  control_inv r s -> crashed s = None -> disp s = DWait -> wg s = 0 ->
  exists sched s', run r sched s = Some s' /\ disp s' = DDone.
Proof.
  intros Hc Hcr Hd Hwg.
  assert (results_closed s = false) as Hr.
  { destruct (results_closed s) eqn:Hr; [|done].
    apply (ci_results _ _ Hc) in Hr. rewrite Hd in Hr. simpl in Hr. lia. }
  pose proof (ci_once _ _ Hc) as Honce.
  destruct s as [? ? [sc od] ? ? ? ? ? ? pk ? ? ? ? ? ?]. simpl in *. subst.
  destruct sc.
  - eexists [ADispWait; ADispCloseResults; ADispStop], _. split; [reflexivity|].
    simpl. unfold finish_defer. simpl. by destruct pk.
  - eexists [ADispWait; ADispCloseResults; ADispStop; ADispStopOnce], _.
    split; [reflexivity|]. simpl. unfold finish_defer. simpl. by destruct pk.
Qed.

Lemma finish_from_later r s :
  control_inv r s -> crashed s = None ->
  disp s = DCloseResults \/ disp s = DStop \/ disp s = DStopOnce \/ disp s = DDone ->
  exists sched s', run r sched s = Some s' /\ disp s' = DDone.
Proof.
  intros Hc Hcr Hd.
  pose proof (ci_once _ _ Hc) as Honce. pose proof (ci_results _ _ Hc) as Hres.
  destruct s as [? ? [sc od] ? ? ? ? ? ? pk ? ? ? rc ? ?]. simpl in *. subst.
  destruct Hd as [-> | [-> | [-> | ->]]]; simpl in *.
  - assert (rc = false) as -> by (destruct rc; [destruct Hres as [Hres _]; specialize (Hres eq_refl); lia|done]).
    destruct sc.
    + eexists [ADispCloseResults; ADispStop], _. split; [reflexivity|].
      simpl. unfold finish_defer. simpl. by destruct pk.
    + eexists [ADispCloseResults; ADispStop; ADispStopOnce], _. split; [reflexivity|].
      simpl. unfold finish_defer. simpl. by destruct pk.
  - destruct sc.
    + eexists [ADispStop], _. split; [reflexivity|].
      simpl. unfold finish_defer. simpl. by destruct pk.
    + eexists [ADispStop; ADispStopOnce], _. split; [reflexivity|].
      simpl. unfold finish_defer. simpl. by destruct pk.
  - destruct sc.
    + eexists [ADispStopOnce], _. split; [reflexivity|].
      simpl. unfold finish_defer. simpl. by destruct pk.
    + eexists [ADispStopOnce], _. split; [reflexivity|].
      simpl. unfold finish_defer. simpl. by destruct pk.
  - eexists [], _. split; reflexivity.
Qed.

(** X20: in every reachable state in which the dispatcher has left its
    loop and [Run] is receiving, some schedule completes the shutdown, all
    five steps in their order: the deferred shutdown cannot get stuck. *)
Theorem shutdown_completes (r : Runner) (s : state) :
  wf_args (args r) -> reachable r s ->
  crashed s = None -> main s = MLoop -> (1 <= nphase (disp s))%nat ->
  exists sched s', run r sched s = Some s' /\ disp s' = DDone /\
    omap shutdown_of (trace s') = shutdown_order.
Proof.
  intros Hwf Hreach Hcr Hm Hp.
  assert (exists sched s', run r sched s = Some s' /\ disp s' = DDone)
    as (sched & s' & Hrun & Hd).
  { pose proof (ri_control _ _ (reachable_run_inv r s Hwf Hreach)) as Hc.
    assert (forall s1, draining r s1 ->
              exists sched s', run r sched s1 = Some s' /\ disp s' = DDone) as Hdrain.
    { intros s1 Hdr. pose proof Hdr as (Hc1 & _).
      assert (0 <= wg s1) as Hnn
        by (rewrite (ci_wg _ _ Hc1); apply tally_bounds).
      destruct (drain_pool r (Z.to_nat (wg s1)) s1 Hwf Hdr) as (sc1 & s2 & Hr1 & Hdr2 & Hwg);
        [lia|].
      destruct Hdr2 as (Hc2 & Hcr2 & Hd2 & _).
      destruct (finish_from_wait r s2 Hc2 Hcr2 Hd2 Hwg) as (sc2 & s3 & Hr2 & Hd3).
      exists (sc1 ++ sc2), s3. by rewrite run_app, Hr1. }
    destruct (disp s) eqn:Hd; simpl in Hp; try lia.
    - (* close(ticks) is still to come *)
      assert (ticks_closed s = false) as Ht.
      { destruct (ticks_closed s) eqn:Ht; [|done].
        apply (ci_ticks _ _ Hc) in Ht. rewrite Hd in Ht. simpl in Ht. lia. }
      set (s1 := emit EvCloseTicks (set_disp DWait (set_ticks_closed true s))).
      assert (step r ADispCloseTicks s = Some s1) as Hstep.
      { unfold step, close_chan. by rewrite Hcr, Hd, Ht. }
      destruct (Hdrain s1) as (sc & s' & Hrun & Hd').
      { split; [by eapply step_control|]. done. }
      exists (ADispCloseTicks :: sc), s'. simpl. by rewrite Hstep.
    - apply Hdrain. done.
    - apply finish_from_later; auto.
    - apply finish_from_later; auto.
    - apply finish_from_later; auto.
    - apply finish_from_later; auto. }
  exists sched, s'. split; [done|split; [done|]].
  pose proof (reachable_run r sched s s' Hreach Hrun) as Hreach'.
  destruct (reachable_run_inv r s' Hwf Hreach') as [_ _ Ht _].
  unfold trace. rewrite omap_reverse, (ti_shutdown _ Ht), Hd. apply reverse_involutive.
Qed.

(** * Further properties of the runner *)

(** ** The client timeout *)

(** X16: the client's timeout is the configured number of seconds exactly
    when that number is at most 9223372036; above it the duration wraps. *)
Theorem client_timeout_exact (a : LoadTestArgs) :
  is_uint64 (Timeout a) ->
  (client_timeout a = Timeout a * Second <-> Timeout a <= 9223372036).
Proof.
  intros [Hlo Hhi]. unfold client_timeout. split.
  - intros Heq.
    pose proof (to_int64_range (to_int64 (Timeout a) * Second)) as [_ Hr].
    rewrite Heq in Hr. unfold MaxInt64, Second in Hr. lia.
  - intros Hle.
    rewrite (to_int64_id (Timeout a))
      by (unfold is_int64, MinInt64, MaxInt64; lia).
    apply to_int64_id. unfold is_int64, MinInt64, MaxInt64, Second. lia.
Qed.

Lemma client_timeout_exact_witness :
  client_timeout (args demo_runner) = 30 * Second <-> 30 <= 9223372036.
Proof.
  apply (client_timeout_exact (args demo_runner)). vm_compute. split; congruence.
Defined.

(** ** The summary *)

Lemma filter_code_split (results : list Result) :
  (length (filter (fun x => code_ok (Code x) = true) results)
   + length (filter (fun x => code_ok (Code x) = false) results))%nat
  = length results.
Proof.
  induction results as [|x l IH]; [done|].
  rewrite !filter_cons. destruct (code_ok (Code x)) eqn:Hx.
  - rewrite decide_True by done. rewrite decide_False by done. simpl. lia.
  - rewrite decide_False by done. rewrite decide_True by done. simpl. lia.
Qed.

(** X9: the summary panics (the average divides by a zero length) exactly
    on an empty list; otherwise every Result is counted once, as a success
    or as a failure, and the average is the wrapped sum of the latencies
    divided, toward zero, by their number. *)
Theorem printResultSummary_cases (results : list Result) :
  (printResultSummary results = None <-> results = []) /\
  (forall success failure avg,
     printResultSummary results = Some (success, failure, avg) ->
     success + failure = Z.of_nat (length results) /\
     avg = to_int64 (Z.quot (totalLatency results) (Z.of_nat (length results)))).
Proof.
  unfold printResultSummary, div_int64. fold (totalLatency results). split.
  - destruct results as [|x l]; [done|].
    destruct (Z.eqb_spec (Z.of_nat (length (x :: l))) 0) as [Hz|_]; [simpl in Hz; lia|].
    done.
  - intros success failure avg H.
    destruct (Z.eqb_spec (Z.of_nat (length results)) 0); [done|].
    injection H as <- <- <-. split; [|done].
    rewrite <- Nat2Z.inj_add. by rewrite filter_code_split.
Qed.

Lemma printResultSummary_cases_witness :
  printResultSummary (resultList demo_state) = Some (1, 0, 3000) /\
  1 + 0 = Z.of_nat (length (resultList demo_state)).
Proof.
  split; [vm_compute; reflexivity|].
  destruct (printResultSummary_cases (resultList demo_state)) as [_ H].
  apply (H 1 0 3000). vm_compute. reflexivity.
Defined.

(** ** Requests and the summary agree *)

(** X10: for an exchange whose error texts and status text are not empty,
    the Result of [sendRequest] has an empty error field exactly when the
    summary counts its status code as a success. *)
Theorem error_empty_iff_code_ok (now_send now_done : Z) (o : http_outcome) (lt : loadTest) :
  match o with
  | BuildError e | TransportError e => e <> ""
  | Response sc st => 0 <= sc < 2 ^ 16 /\ st <> ""
  end ->
  let result := fst (sendRequest now_send now_done o lt) in
  Error result = "" <-> code_ok (Code result) = true.
Proof.
  destruct o as [e|e|sc st].
  - simpl. intros He. split; [done|discriminate].
  - intros He. split; [done|discriminate].
  - intros [Hsc Hst]. cbv zeta.
    unfold sendRequest, enterSend, completeSend, doRequest.
    cbn [Code set_Code]. rewrite to_uint16_id by done. unfold code_ok.
    destruct (Z.ltb_spec sc 200), (Z.geb_spec sc 400), (Z.geb_spec sc 200),
      (Z.ltb_spec sc 400); simpl; rewrite ?to_uint16_id by done;
      try lia; split; try done;
      first [ by (destruct (Z.geb_spec sc 200), (Z.ltb_spec sc 400); simpl; lia || done)
            | idtac ].
Qed.

Lemma error_empty_iff_code_ok_witness :
  Error (fst (sendRequest 10 25 (Response 404 "404 Not Found") lt0)) = "" <->
  code_ok (Code (fst (sendRequest 10 25 (Response 404 "404 Not Found") lt0))) = true.
Proof.
  apply (error_empty_iff_code_ok 10 25 (Response 404 "404 Not Found") lt0).
  split; [lia|discriminate].
Defined.

(** ** The output record *)

Example result_record_demo :
  result_record (fun t => 1700000000000000000 + t)
    (mkResult false 3000 10000000 7 "404 Not Found" 404)
  = ["1700000000010000000"; "404"; "3000"; "404 Not Found"; "7"].
Proof. vm_compute. reflexivity. Qed.

(** X15: the record written for a Result determines its timestamp, status
    code, latency, error text and sequence number: two Results with the
    same record differ at most in the success flag, which is not written. *)
Theorem result_record_inj (UnixNano : Z -> Z) (x y : Result) :
  (forall t u, UnixNano t = UnixNano u -> t = u) ->
  0 <= Code x < 2 ^ 16 -> 0 <= Code y < 2 ^ 16 ->
  result_record UnixNano x = result_record UnixNano y ->
  Timestamp x = Timestamp y /\ Code x = Code y /\ Latency x = Latency y /\
  Error x = Error y /\ Seq x = Seq y.
Proof.
  intros Hinj Hx Hy H. unfold result_record, FormatInt, FormatUint in H.
  injection H as Hts Hcode Hlat Herr Hseq.
  apply (inj pretty) in Hts, Hcode, Hlat, Hseq.
  rewrite !to_uint64_id in Hcode by (unfold is_uint64, MaxUint64; lia).
  auto.
Qed.

Lemma result_record_inj_witness :
  result_record (fun t => t) (mkResult false 3000 10000000 0 "" 200)
  = result_record (fun t => t) (mkResult true 3000 10000000 0 "" 200) /\
  Seq (mkResult false 3000 10000000 0 "" 200) = Seq (mkResult true 3000 10000000 0 "" 200).
Proof.
  split; [vm_compute; reflexivity|].
  apply (result_record_inj (fun t => t)
           (mkResult false 3000 10000000 0 "" 200) (mkResult true 3000 10000000 0 "" 200)).
  - intros t u Htu. exact Htu.
  - simpl. lia.
  - simpl. lia.
  - vm_compute. reflexivity.
Defined.

(** ** More on the pacer *)

Lemma to_int64_add_l a b : to_int64 (to_int64 a + b) = to_int64 (a + b).
Proof.
  unfold to_int64. f_equal.
  replace ((a + 2 ^ 63) mod 2 ^ 64 - 2 ^ 63 + b + 2 ^ 63)
    with ((a + 2 ^ 63) mod 2 ^ 64 + b) by lia.
  rewrite Zplus_mod_idemp_l. f_equal. lia.
Qed.

(** X17: with the rate in range, [pace] stops exactly from the count
    [MaxInt64 / interval + 1] on, whatever the elapsed time; that count is
    above 9223372036, and a stop at one count is a stop at every larger
    one. *)
Theorem pace_stop_threshold (r : Runner) (elapsed : Z) :
  0 < Qps (args r) <= Second ->
  0 <= elapsed <= MaxInt64 ->
  9223372036 <= stop_threshold (Qps (args r)) /\
  (forall requests,
     (exists w, pace r elapsed requests = Some (w, true)) <->
     stop_threshold (Qps (args r)) < requests) /\
  (forall c c' w, pace r elapsed c = Some (w, true) -> c <= c' ->
     pace r elapsed c' = Some (0, true)).
Proof.
  intros Hq He. pose proof (interval_pos r Hq) as Hi.
  unfold stop_threshold.
  set (iv := interval_of (Qps (args r))) in *.
  assert (forall c, MaxInt64 / iv < c <-> MaxInt64 < c * iv) as Hg.
  { intros c. split; intros H.
    - destruct (Z.le_gt_cases (c * iv) MaxInt64) as [Hle|]; [|lia].
      assert (c <= MaxInt64 / iv) by (apply Z.div_le_lower_bound; lia). lia.
    - apply Z.div_lt_upper_bound; lia. }
  assert (forall c, (exists w, pace r elapsed c = Some (w, true)) <-> MaxInt64 / iv < c)
    as Hiff.
  { intros c. rewrite Hg. apply pace_stop_iff; done. }
  split; [|split; [done|]].
  - apply Z.div_le_lower_bound; [lia|]. unfold MaxInt64, Second in *. lia.
  - intros c c' w Hc Hle.
    assert (MaxInt64 / iv < c) as Hc0 by (apply Hiff; eauto).
    assert (MaxInt64 / iv < c') as Hc' by lia.
    rewrite (pace_unfold r Hq) by done. fold iv.
    pose proof (guard_not_behind r elapsed c' Hq He) as Hnb. fold iv in Hnb.
    destruct (Z.ltb_spec c' (Qps (args r) * (elapsed / Second))); [lia|].
    destruct (Z.ltb_spec (MaxInt64 / iv) c'); [done|lia].
Qed.

Lemma pace_stop_threshold_witness :
  9223372036 <= stop_threshold 1 /\
  pace (runner_qps 1) 0 9223372038 = Some (0, true).
Proof.
  destruct (pace_stop_threshold (runner_qps 1) 0) as (Hmin & _ & Hmono).
  - vm_compute. split; congruence.
  - vm_compute. split; congruence.
  - split; [exact Hmin|].
    apply (Hmono 9223372037 9223372038 0); [vm_compute; reflexivity|lia].
Defined.

(** X18: while the run is not behind schedule, the wait for the next
    count is one interval longer: successive requests are paced one
    interval apart. *)
Theorem pace_spacing (r : Runner) (elapsed requests : Z) :
  0 < Qps (args r) <= Second ->
  0 <= elapsed <= MaxInt64 ->
  Qps (args r) * (elapsed / Second) <= requests ->
  (requests + 2) * interval_of (Qps (args r)) <= MaxInt64 ->
  exists w, pace r elapsed requests = Some (w, false) /\
            pace r elapsed (requests + 1)
              = Some (w + interval_of (Qps (args r)), false).
Proof.
  intros Hq He Hb Hfit. pose proof (interval_pos r Hq) as Hi.
  set (iv := interval_of (Qps (args r))) in *.
  assert (0 <= requests).
  { assert (0 <= elapsed / Second) by (apply Z.div_pos; unfold Second; lia). nia. }
  assert (forall c, requests <= c <= requests + 1 ->
            pace r elapsed c = Some ((c + 1) * iv - elapsed, false)) as Hp.
  { intros c Hc. rewrite (pace_unfold r Hq) by done. fold iv.
    destruct (Z.ltb_spec c (Qps (args r) * (elapsed / Second))); [lia|].
    assert (c <= MaxInt64 / iv) by (apply Z.div_le_lower_bound; nia).
    destruct (Z.ltb_spec (MaxInt64 / iv) c); [lia|].
    rewrite (to_uint64_id ((c + 1) * iv))
      by (unfold is_uint64, MaxUint64, MaxInt64 in *; nia).
    rewrite (to_int64_id ((c + 1) * iv))
      by (unfold is_int64, MinInt64, MaxInt64 in *; nia).
    rewrite to_int64_id by (unfold is_int64, MinInt64, MaxInt64 in *; nia).
    done. }
  exists ((requests + 1) * iv - elapsed). split; [apply Hp; lia|].
  rewrite Hp by lia. f_equal. f_equal. lia.
Qed.

Lemma pace_spacing_witness :
  exists w, pace (runner_qps 100) 995000000 50 = Some (w, false) /\
            pace (runner_qps 100) 995000000 (50 + 1)
              = Some (w + interval_of (Qps (args (runner_qps 100))), false).
Proof.
  apply (pace_spacing (runner_qps 100) 995000000 50); vm_compute; try (split; congruence);
    congruence.
Defined.

(** Inside a run the count never runs ahead of the clock, and then the
    pacer neither stops nor panics: it asks for a wait of at most one
    interval, after which one more interval has elapsed. *)
Lemma pace_in_run (r : Runner) (e c : Z) (res : option (Z * bool)) :
  0 < Qps (args r) <= Second ->
  0 <= e <= MaxInt64 -> 0 <= c ->
  c * interval_of (Qps (args r)) <= e ->
  pace r e c = res ->
  exists w, res = Some (w, false) /\
    (c + 1) * interval_of (Qps (args r)) <= e + Z.max w 0 /\
    w <= interval_of (Qps (args r)).
Proof.
  intros Hq He Hc Hrate <-. pose proof (interval_pos r Hq) as Hi.
  rewrite (pace_unfold r Hq) by done.
  set (iv := interval_of (Qps (args r))) in *.
  destruct (Z.ltb_spec c (Qps (args r) * (e / Second))) as [Hb|Hb].
  - exists 0. split; [done|]. split; [|lia].
    assert (Qps (args r) * iv <= Second) by (apply Z.mul_div_le; lia).
    assert (Second * (e / Second) <= e) by (apply Z.mul_div_le; unfold Second; lia).
    assert (0 <= e / Second) by (apply Z.div_pos; unfold Second; lia).
    nia.
  - assert (c <= MaxInt64 / iv) by (apply Z.div_le_lower_bound; lia).
    destruct (Z.ltb_spec (MaxInt64 / iv) c); [lia|].
    exists ((c + 1) * iv - e).
    rewrite (to_uint64_id ((c + 1) * iv))
      by (unfold is_uint64, MaxUint64, MaxInt64, Second in *; nia).
    replace (to_int64 ((c + 1) * iv) - e) with (to_int64 ((c + 1) * iv) + - e) by lia.
    rewrite to_int64_add_l.
    rewrite to_int64_id by (unfold is_int64, MinInt64, MaxInt64, Second in *; nia).
    split; [f_equal; f_equal; lia|]. split; lia.
Qed.

(** ** Pacing in a run *)

Lemma Forall_held_insert (P : Result -> Prop) l i w :
  Forall P (held_all l) -> Forall P (held w) -> Forall P (held_all (<[i:=w]> l)).
Proof.
  revert i. induction l as [|x l IH]; intros i Hl Hw; [done|].
  unfold held_all in *. simpl in Hl. apply Forall_app in Hl as [Hx Hl].
  destruct i as [|i]; simpl; apply Forall_app; split; auto.
Qed.

Lemma printResultSummary_None results :
  printResultSummary results = None -> results = [].
Proof.
  unfold printResultSummary, div_int64.
  destruct results as [|x l]; [done|].
  destruct (Z.eqb_spec (Z.of_nat (length (x :: l))) 0) as [Hz|_]; [simpl in Hz; lia|].
  done.
Qed.

Lemma init_state_pace r t0 : 0 <= t0 -> pace_inv r (init_state t0).
Proof.
  intros Ht. split; simpl; try done.
  - lia.
  - intros [?|?]; discriminate.
  - split; apply not_elem_of_nil.
Qed.

Ltac pi_hyps :=
  repeat match goal with
         | H : ?a = ?a -> _ |- _ => specialize (H eq_refl)
         | H : ?a = ?a \/ _ -> _ |- _ => specialize (H (or_introl eq_refl))
         | H : _ \/ ?a = ?a -> _ |- _ => specialize (H (or_intror eq_refl))
         | H : forall w, ?d ?x = ?d w -> _ |- _ => specialize (H x eq_refl)
         | H : _ /\ _ |- _ => destruct H
         end.

Ltac pi_auto :=
  pi_hyps;
  first
    [ done
    | lia
    | nia
    | by (intros; simplify_eq/=; pi_hyps; first [lia | nia])
    | by (intros [?|?]; simplify_eq/=; pi_hyps; first [lia | nia])
    | by (split; apply not_elem_of_cons; (split; [discriminate|done]))
    | by (intros ?; repeat split; first [done | by eapply printResultSummary_None])
    | by (rewrite ?app_nil_r; repeat first
            [ apply Forall_app; split
            | apply Forall_held_insert
            | rewrite held_all_replicate_idle
            | rewrite held_all_app
            | assumption
            | by constructor ])
    | idtac ].

Lemma step_pace r a s s' :
  wf_args (args r) -> 0 < Qps (args r) <= Second ->
  control_inv r s -> data_inv s -> pace_inv r s ->
  step r a s = Some s' -> pace_inv r s'.
Proof.
  intros Hwf Hq Hc Hd Hp H.
  pose proof (ci_crash _ _ (step_control r a s s' Hwf Hc H)) as Hcrash'.
  pose proof (interval_pos r Hq) as Hi.
  destruct s as [? [? ?] [? ?] ? ? ? ? ? ? ? ? ? ? ? ? ?].
  destruct Hc, Hd, Hp. unfold all_results in *. simpl in *.
  step_cases H.
  all: try match goal with
           | H : _ !! _ = Some WGotTick |- _ =>
             pose proof (tally_pos got_tick _ _ _ H eq_refl)
           end.
  all: pose proof (tally_bounds got_tick pool0).
  all: try match goal with
           | H : _ && _ = true |- _ =>
             apply andb_true_iff in H as [?%Z.leb_le ?%Z.leb_le]
           end.
  all: try rewrite time_Since_exact in * by lia.
  all: try match goal with
           | H : pace ?rr ?e ?c = ?res, Hq : 0 < Qps (args ?rr) <= Second |- _ =>
             destruct (pace_in_run rr e c res Hq) as (? & ? & ? & ?);
               [lia|lia|lia|exact H|]; simplify_eq
           end.
  all: try (destruct Hcrash' as [?|?]; discriminate).
  all: apply Forall_app in pi_results0 as [Hheld Hrl].
  all: try match goal with
           | H : ?l !! ?i = Some ?w |- _ =>
             assert (Forall (fun x => (Seq x + 1) * interval_of (Qps (args r))
                                      <= Timestamp x - began0) (held w))
               by (rewrite Forall_forall; intros x Hx;
                   rewrite Forall_forall in Hheld; apply Hheld;
                   by eapply held_all_elem)
           end.
  all: split; unfold all_results; simpl; use_hyps; pool_rewrite; pi_auto.
  all: try (rewrite to_uint64_id by (unfold is_uint64; lia); lia).
  all: try (apply Forall_app; split; [|first [done | by apply Forall_app]]).
  all: try (apply Forall_held_insert; [done|]; simpl; try done).
  - rewrite held_all_replicate_idle. by subst.
  - constructor; [|done]. simpl. unfold time_Add. nia.
  - constructor; [|done].
    rewrite completeSend_Seq, completeSend_Timestamp.
    match goal with H : Forall _ (held (WInFlight _)) |- _ => by inversion H end.
Qed.

(** ** Input and output of a run *)

Lemma init_state_io r t0 : io_inv r (init_state t0).
Proof.
  split; simpl; try done.
  - intros who b Hin. by apply elem_of_nil in Hin.
  - intros Hin. by apply elem_of_nil in Hin.
Qed.

Lemma insert_not_nil {A} (l : list A) i x y : l !! i = Some x -> <[i:=y]> l <> [].
Proof.
  intros Hi Hnil. apply (f_equal length) in Hnil.
  rewrite length_insert in Hnil. destruct l; [done|simpl in Hnil; lia].
Qed.

Ltac bool_hyps :=
  repeat match goal with
         | H : _ && _ = true |- _ => apply andb_true_iff in H as [? ?]
         | H : (_ <=? _) = true |- _ => apply Z.leb_le in H
         | H : (_ >? _) = true |- _ => apply Z.gtb_lt in H
         | H : (_ <? _) = true |- _ => apply Z.ltb_lt in H
         end.

Ltac fold_omap :=
  repeat match goal with
         | |- context [list_omap _ _ ?f ?l] => change (list_omap _ _ f l) with (omap f l)
         end.

Ltac io_auto :=
  pi_hyps; fold_omap;
  first
    [ done
    | lia
    | congruence
    | by (intros; simplify_eq/=; pi_hyps; first [done | lia | congruence])
    | by eauto
    | by (intros Hnil; exfalso; first
            [ by eapply insert_not_nil
            | by destruct (app_cons_not_nil _ _ _ (eq_sym Hnil)) ])
    | by (intros Hin; apply elem_of_cons in Hin as [Heq|Hin];
          [first [discriminate Heq | simplify_eq; split; lia]|auto])
    | by (intros ? ? Hin; apply elem_of_cons in Hin as [Heq|Hin];
          [first [discriminate Heq | by simplify_eq]|eauto])
    | by (rewrite reverse_app; simpl; f_equal; done)
    | idtac ].

Lemma step_io r a s s' :
  wf_args (args r) ->
  control_inv r s -> data_inv s -> io_inv r s ->
  step r a s = Some s' -> io_inv r s'.
Proof.
  intros Hwf Hc Hd Hio H.
  destruct s as [? [? ?] [? ?] ? ? ? ? ? ? ? ? ? ? ? ? ?].
  destruct Hc, Hd. simpl in *.
  step_cases H.
  all: destruct Hio; simpl in *.
  all: bool_hyps.
  all: try rewrite time_Since_exact in * by lia.
  all: pose proof (tally_bounds got_tick pool0).
  all: split; simpl; use_hyps; pool_rewrite; io_auto.
  all: try (rewrite to_uint64_id by (unfold is_uint64; lia); lia).
  all: try (intros Hin;
            repeat match goal with H : _ ∈ _ -> _ |- _ => specialize (H Hin) end;
            pi_hyps; split; lia).
  all: try (intros Hin; subst; by apply elem_of_nil in Hin).
  all: try (intros _ [Hf|Hle]; first [congruence | lia]).
  all: try (intros _; left; split; [done|]; intros ->; discriminate).
  - intros e [= <-].
    match goal with H : createWriter _ _ = Some _ |- _ => unfold createWriter in H end.
    destruct (String.eqb_spec (OutputFile (args r)) "stdout"); [done|]. eauto.
  - exists result. congruence.
  - intros Hm Hor. specialize (io_fixed0 Hm Hor). destruct Hor; [congruence|lia].
  - intros Hm. destruct (io_nil0 Hm) as [[? ?]|?]; [discriminate|by right].
Qed.

(** ** Reachable states, again *)

Lemma reachable_io r s : wf_args (args r) -> reachable r s -> io_inv r s.
Proof.
  intros Hwf (t0 & sched & Ht & H).
  assert (forall sc s0, run_inv r s0 -> io_inv r s0 -> run r sc s0 = Some s -> io_inv r s)
    as Hind.
  { induction sc as [|a sc IH]; intros s0 Hri Hio Hrun; simpl in Hrun.
    - by simplify_eq.
    - destruct (step r a s0) as [s1|] eqn:Hstep; [|done].
      apply (IH s1); [by eapply step_run_inv| |done].
      destruct Hri as [Hc Hd _ _]. by eapply step_io. }
  apply (Hind sched (init_state t0)); [|apply init_state_io|done].
  split; [apply init_state_control|by apply init_state_data
         |apply init_state_trace|apply init_state_scale].
Qed.

Lemma reachable_pace r s :
  wf_args (args r) -> 0 < Qps (args r) <= Second -> reachable r s -> pace_inv r s.
Proof.
  intros Hwf Hq (t0 & sched & Ht & H).
  assert (forall sc s0, run_inv r s0 -> pace_inv r s0 -> run r sc s0 = Some s -> pace_inv r s)
    as Hind.
  { induction sc as [|a sc IH]; intros s0 Hri Hp Hrun; simpl in Hrun.
    - by simplify_eq.
    - destruct (step r a s0) as [s1|] eqn:Hstep; [|done].
      apply (IH s1); [by eapply step_run_inv| |done].
      destruct Hri as [Hc Hd _ _]. by eapply step_pace. }
  apply (Hind sched (init_state t0)); [|apply init_state_pace; lia|done].
  split; [apply init_state_control|by apply init_state_data
         |apply init_state_trace|apply init_state_scale].
Qed.

Lemma demo_qps : 0 < Qps (args demo_runner) <= Second.
Proof. vm_compute. split; congruence. Defined.

Lemma idle_wf : wf_args (args idle_runner).
Proof. vm_compute. repeat split; congruence. Defined.

Lemma empty_reachable : reachable demo_runner empty_state.
Proof. exists 0, empty_schedule. split; [vm_compute; split; congruence|vm_compute; reflexivity]. Defined.

Lemma exiting_reachable : reachable demo_runner exiting_state.
Proof. exists 0, exiting_schedule. split; [vm_compute; split; congruence|vm_compute; reflexivity]. Defined.

Lemma sleeping_reachable : reachable demo_runner sleeping_state.
Proof. exists 0, sleeping_schedule. split; [vm_compute; split; congruence|vm_compute; reflexivity]. Defined.

Lemma idle_reachable : reachable idle_runner idle_state.
Proof. exists 0, idle_schedule. split; [vm_compute; split; congruence|vm_compute; reflexivity]. Defined.

Example empty_state_crashed :
  crashed empty_state = Some DivideByZero /\ resultList empty_state = [].
Proof. vm_compute. split; reflexivity. Qed.

Example sleeping_state_asleep :
  disp sleeping_state = DSleep 10000000 /\ clock sleeping_state = 4000000.
Proof. vm_compute. split; reflexivity. Qed.

(** ** The rate of a run *)



(** X2: with the rate in range, the request with sequence number k is
    never stamped before k + 1 intervals have elapsed since the start. *)
Theorem request_not_before_slot (r : Runner) (s : state) (x : Result) :
  wf_args (args r) -> 0 < Qps (args r) <= Second -> reachable r s ->
  x ∈ all_results s ->
  (Seq x + 1) * interval_of (Qps (args r)) <= Timestamp x - began (lt s).
Proof.
  intros Hwf Hq Hreach Hx.
  pose proof (pi_results _ _ (reachable_pace r s Hwf Hq Hreach)) as Hr.
  rewrite Forall_forall in Hr. by apply Hr.
Qed.

Lemma request_not_before_slot_witness :
  (Seq (mkResult false 3000 10000000 0 "" 200) + 1) * interval_of (Qps (args demo_runner))
  <= Timestamp (mkResult false 3000 10000000 0 "" 200) - began (lt demo_state).
Proof.
  apply (request_not_before_slot demo_runner demo_state _ demo_wf demo_qps demo_reachable).
  vm_compute. by left.
Defined.

(** X19: with the rate in range, a pacing sleep never lasts longer than
    one interval: while the dispatcher sleeps, its wake-up time is at most
    one interval ahead of the clock. *)
Theorem sleep_at_most_interval (r : Runner) (s : state) (wake : Z) :
  wf_args (args r) -> 0 < Qps (args r) <= Second -> reachable r s ->
  disp s = DSleep wake ->
  wake <= clock s + interval_of (Qps (args r)).
Proof.
  intros Hwf Hq Hreach Hd.
  by destruct (pi_sleep _ _ (reachable_pace r s Hwf Hq Hreach) wake Hd).
Qed.

Lemma sleep_at_most_interval_witness :
  10000000 <= clock sleeping_state + interval_of (Qps (args demo_runner)).
Proof.
  apply (sleep_at_most_interval demo_runner sleeping_state 10000000
           demo_wf demo_qps sleeping_reachable).
  reflexivity.
Defined.

(** X3: with the rate in range, the pacer never ends a run: the dispatch
    loop is left only because the duration has expired or because the stop
    channel was seen closed, never through the pacer's stop or a panic of
    the pacer. *)
Theorem pacer_never_ends_run (r : Runner) (s : state) (why : exit_reason) :
  wf_args (args r) -> 0 < Qps (args r) <= Second -> reachable r s ->
  EvLoopExit why ∈ trace s ->
  why = DurationExpired \/ why = StopObserved.
Proof.
  intros Hwf Hq Hreach Hin.
  destruct (pi_exits _ _ (reachable_pace r s Hwf Hq Hreach)) as [Hstop Hpanic].
  unfold trace in Hin. rewrite elem_of_reverse in Hin.
  destruct why; auto; contradiction.
Qed.

Lemma pacer_never_ends_run_witness :
  DurationExpired = DurationExpired \/ DurationExpired = StopObserved.
Proof.
  apply (pacer_never_ends_run demo_runner demo_state DurationExpired
           demo_wf demo_qps demo_reachable).
  vm_compute. repeat first [by left | right].
Defined.

(** X4: with the rate in range, the only panic of the whole process is
    the summary of a run that ended without any Result: a crashed state has
    panicked on an integer division by zero, in [Run], after the sink was
    closed with nothing received. *)
Theorem crash_only_in_empty_summary (r : Runner) (s : state) (p : panic) :
  wf_args (args r) -> 0 < Qps (args r) <= Second -> reachable r s ->
  crashed s = Some p ->
  p = DivideByZero /\ main s = MLoop /\ results_closed s = true /\ resultList s = [].
Proof.
  intros Hwf Hq Hreach Hcr.
  destruct (pi_crash _ _ (reachable_pace r s Hwf Hq Hreach)) as (Hp & Hrest).
  { by rewrite Hcr. }
  split; [congruence|done].
Qed.

Lemma crash_only_in_empty_summary_witness :
  DivideByZero = DivideByZero /\ main empty_state = MLoop /\
  results_closed empty_state = true /\ resultList empty_state = [].
Proof.
  apply (crash_only_in_empty_summary demo_runner empty_state DivideByZero
           demo_wf demo_qps empty_reachable).
  reflexivity.
Defined.

(** ** Ticks, requests and Results *)

(** X5: every tick handed out is accounted for by exactly one Result or
    one request in progress: the count of ticks is the number of tick
    events, and equals the Results received plus the Results held by
    workers plus the workers that have a tick and have not yet started; once
    the sink is closed it equals the number of Results received. *)
Theorem every_tick_one_result (r : Runner) (s : state) :
  wf_args (args r) -> reachable r s ->
  count s = Z.of_nat (length (omap tick_of (trace s))) /\
  count s = Z.of_nat (length (resultList s)) + Z.of_nat (length (held_all (pool s)))
            + tally got_tick (pool s) /\
  (results_closed s = true -> count s = Z.of_nat (length (resultList s))).
Proof.
  intros Hwf Hreach.
  destruct (reachable_run_inv r s Hwf Hreach) as [Hc Hd _ _].
  pose proof (reachable_io r s Hwf Hreach) as Hio.
  pose proof (stamps_ok_length _ _ _ (di_seq _ Hd) (di_stamps _ Hd)) as Hlen.
  unfold all_results in Hlen. rewrite length_map, length_app in Hlen.
  pose proof (di_count _ Hd) as Hcount.
  split; [|split].
  - unfold trace. rewrite omap_reverse, length_reverse. symmetry. apply (io_ticks _ _ Hio).
  - lia.
  - intros Hclosed. apply (ci_results _ _ Hc) in Hclosed.
    assert (wg s = 0) as Hwg by (apply (ci_joined _ _ Hc); lia).
    rewrite (ci_wg _ _ Hc) in Hwg.
    assert (tally got_tick (pool s) = 0) as Hgt.
    { apply tally_live_zero in Hwg as [Hall _].
      clear -Hall. induction Hall as [|w l -> _ IH]; simpl; [done|lia]. }
    apply tally_live_zero in Hwg as [_ Hheld]. rewrite Hheld in Hlen. simpl in Hlen. lia.
Qed.

Lemma every_tick_one_result_witness :
  count demo_state = Z.of_nat (length (omap tick_of (trace demo_state))) /\
  count demo_state = Z.of_nat (length (resultList demo_state)).
Proof.
  destruct (every_tick_one_result demo_runner demo_state demo_wf demo_reachable)
    as (Hticks & _ & Hclosed).
  split; [exact Hticks|]. apply Hclosed. reflexivity.
Defined.

(** X6: [Run] receives the Results in the order of the pushes and writes
    each one as it arrives: what has been written is what has been
    received, except after a failed write, where [Run] has returned that
    error and exactly the last Result received is missing from the output. *)
Theorem results_written_in_order (r : Runner) (s : state) :
  wf_args (args r) -> reachable r s ->
  omap push_of (trace s) = resultList s /\
  ((forall err, main s <> MReturned (RetWriteError err)) -> written s = resultList s) /\
  (forall err, main s = MReturned (RetWriteError err) ->
     exists x, resultList s = written s ++ [x]).
Proof.
  intros Hwf Hreach. pose proof (reachable_io r s Hwf Hreach) as Hio.
  split; [|split].
  - unfold trace. rewrite omap_reverse, (io_pushes _ _ Hio). apply reverse_involutive.
  - intros Hne. pose proof (io_written _ _ Hio) as Hw.
    destruct (main s) as [| | | |[]]; try done. by destruct (Hne err).
  - intros err Hm. pose proof (io_written _ _ Hio) as Hw. by rewrite Hm in Hw.
Qed.

Lemma results_written_in_order_witness :
  omap push_of (trace demo_state) = resultList demo_state /\
  written demo_state = resultList demo_state.
Proof.
  destruct (results_written_in_order demo_runner demo_state demo_wf demo_reachable)
    as (Hpush & Hw & _).
  split; [exact Hpush|]. apply Hw. intros err. discriminate.
Defined.

(** X7: [Run] returns nil only when the sink is closed and at least one
    Result was received, or when the stop channel was already closed at a
    signal. *)
Theorem run_returns_nil_when (r : Runner) (s : state) :
  wf_args (args r) -> reachable r s ->
  main s = MReturned RetNil ->
  (results_closed s = true /\ resultList s <> []) \/ stopch_closed (stop s) = true.
Proof.
  intros Hwf Hreach. apply (io_nil _ _ (reachable_io r s Hwf Hreach)).
Qed.

Lemma run_returns_nil_when_witness :
  (results_closed demo_state = true /\ resultList demo_state <> []) \/
  stopch_closed (stop demo_state) = true.
Proof.
  apply (run_returns_nil_when demo_runner demo_state demo_wf demo_reachable).
  reflexivity.
Defined.

(** X8: with the output file "stdout", [Run] never returns an error of
    opening the output, whatever [os.Create] would answer; and an open error
    that [Run] returns is always the wrapped error of [os.Create]. *)
Theorem stdout_always_opens (r : Runner) (s : state) :
  wf_args (args r) -> reachable r s ->
  (OutputFile (args r) = "stdout" -> forall e, main s <> MReturned (RetOpenError e)) /\
  (forall e, main s = MReturned (RetOpenError e) ->
     exists err, e = open_error (OutputFile (args r)) err).
Proof.
  intros Hwf Hreach. pose proof (reachable_io r s Hwf Hreach) as Hio. split.
  - intros Hout e Hm. by destruct (io_open _ _ Hio e Hm) as [Hne _].
  - intros e Hm. by destruct (io_open _ _ Hio e Hm) as [_ He].
Qed.

Lemma stdout_always_opens_witness :
  main demo_state <> MReturned (RetOpenError nofile_error).
Proof.
  destruct (stdout_always_opens demo_runner demo_state demo_wf demo_reachable) as [H _].
  apply H. reflexivity.
Defined.

(** ** The pool, the duration and the stop channel *)

(** X11: without autoscaling, or with a maximum that does not exceed the
    initial count, the pool keeps its initial size for the whole run: once
    [StartTest] has run, the count of workers is the configured one. *)
Theorem pool_fixed_without_scaling (r : Runner) (s : state) :
  wf_args (args r) -> reachable r s ->
  AutoScale (args r) = false \/ MaxWorkers (args r) <= Workers (args r) ->
  main s <> MInit ->
  workers s = Workers (args r) /\ Z.of_nat (length (pool s)) = Workers (args r).
Proof.
  intros Hwf Hreach Hfix Hm.
  pose proof (io_fixed _ _ (reachable_io r s Hwf Hreach) Hm Hfix) as Hw.
  pose proof (ci_workers _ _ (ri_control _ _ (reachable_run_inv r s Hwf Hreach))) as Hl.
  split; [done|congruence].
Qed.

Lemma pool_fixed_without_scaling_witness :
  workers nofile_state = Workers (args nofile_runner) /\
  Z.of_nat (length (pool nofile_state)) = Workers (args nofile_runner).
Proof.
  apply (pool_fixed_without_scaling nofile_runner nofile_state nofile_wf nofile_reachable).
  - by left.
  - discriminate.
Defined.

(** X12: a run configured with no worker and no autoscaling never issues
    a request: no tick is ever handed out, no sequence number is taken and
    no Result is produced. *)
Theorem no_worker_no_request (r : Runner) (s : state) :
  wf_args (args r) -> reachable r s ->
  Workers (args r) = 0 ->
  AutoScale (args r) = false \/ MaxWorkers (args r) <= 0 ->
  count s = 0 /\ seq (lt s) = 0 /\ all_results s = [].
Proof.
  intros Hwf Hreach Hzero Hfix.
  pose proof (reachable_io r s Hwf Hreach) as Hio.
  destruct (reachable_run_inv r s Hwf Hreach) as [Hc Hd _ _].
  assert (pool s = []) as Hpool.
  { assert (main s = MInit \/ main s <> MInit) as [Hm|Hm]
      by (destruct (main s); auto; right; discriminate).
    - by destruct (ci_fresh _ _ Hc Hm) as (_ & Hp & _).
    - pose proof (io_fixed _ _ Hio Hm) as Hw. rewrite Hzero in Hw.
      specialize (Hw Hfix). rewrite (ci_workers _ _ Hc) in Hw.
      destruct (pool s); [done|simpl in Hw; lia]. }
  pose proof (io_idle _ _ Hio Hpool) as Hcount.
  pose proof (di_count _ Hd) as Hdc. pose proof (di_seq _ Hd) as Hseq.
  rewrite Hpool in Hdc. simpl in Hdc.
  assert (seq (lt s) = 0) as Hs0 by lia.
  split; [done|split; [done|]].
  pose proof (stamps_ok_length _ _ _ Hseq (di_stamps _ Hd)) as Hlen.
  rewrite length_map, Hs0 in Hlen.
  destruct (all_results s); [done|simpl in Hlen; lia].
Qed.

Lemma no_worker_no_request_witness :
  count idle_state = 0 /\ seq (lt idle_state) = 0 /\ all_results idle_state = [].
Proof.
  apply (no_worker_no_request idle_runner idle_state idle_wf idle_reachable).
  - reflexivity.
  - by left.
Defined.

(** X13: the dispatch loop ends on the duration only for a positive
    duration that has strictly passed: a duration of zero or less never
    expires, and a run is never cut short before its duration. *)
Theorem duration_expiry (r : Runner) (s : state) :
  wf_args (args r) -> reachable r s ->
  EvLoopExit DurationExpired ∈ trace s ->
  0 < Duration (args r) /\ Duration (args r) < clock s - began (lt s).
Proof.
  intros Hwf Hreach Hin.
  unfold trace in Hin. rewrite elem_of_reverse in Hin.
  destruct (io_duration _ _ (reachable_io r s Hwf Hreach) Hin). lia.
Qed.

Lemma duration_expiry_witness :
  0 < Duration (args demo_runner) /\
  Duration (args demo_runner) < clock exiting_state - began (lt exiting_state).
Proof.
  apply (duration_expiry demo_runner exiting_state demo_wf exiting_reachable).
  vm_compute. repeat first [by left | right].
Defined.

(** X14: the dispatcher goroutine never ends with the stop channel open,
    and the stop channel is closed whenever a call of [Stop] has returned,
    whoever called and whatever it returned. *)
Theorem stop_channel_closed_at_end (r : Runner) (s : state) :
  wf_args (args r) -> reachable r s ->
  disp s = DDone \/ (exists who b, EvStop who b ∈ trace s) ->
  stopch_closed (stop s) = true.
Proof.
  intros Hwf Hreach [Hd|(who & b & Hin)];
    pose proof (reachable_io r s Hwf Hreach) as Hio.
  - by apply (io_done _ _ Hio).
  - unfold trace in Hin. rewrite elem_of_reverse in Hin.
    by apply (io_stopped _ _ Hio who b).
Qed.

Lemma stop_channel_closed_at_end_witness :
  stopch_closed (stop race_state) = true.
Proof.
  apply (stop_channel_closed_at_end demo_runner race_state demo_wf race_reachable).
  left. reflexivity.
Defined.

Lemma shutdown_completes_witness :
  exists sched s', run demo_runner sched exiting_state = Some s' /\ disp s' = DDone /\
    omap shutdown_of (trace s') = shutdown_order.
Proof.
  apply (shutdown_completes demo_runner exiting_state demo_wf exiting_reachable).
  - reflexivity.
  - reflexivity.
  - simpl. lia.
Defined.
